(** * HermesBundler: a shallow embedding of
    [packages/dev-server/src/HermesBundler.ts] and the properties of its
    build pipeline, header inspection and Gradle property parsing. *)

From Stdlib Require Import ZArith Lia Ascii String.
From Stdlib.Strings Require Import Byte.
From stdpp Require Import base option list gmap strings pretty.

Local Open Scope Z_scope.

(** ** JavaScript strings

    A JavaScript string is a finite sequence of UTF-16 code units; the
    string methods the source calls ([split], [trim], [startsWith],
    [indexOf], [substr]) all work on code units. *)

Module JS.

Abbreviation str := (list N).

(** A literal of the source, written as a Rocq string of ASCII characters. *)
Definition lit (s : string) : str :=
  N_of_ascii <$> list_ascii_of_string s.

(** ECMAScript [WhiteSpace] and [LineTerminator] code points, the set
    [String.prototype.trim] strips. *)
Definition isWhiteSpace (c : N) : bool :=
  ((9 <=? c) && (c <=? 13) ||
   (c =? 32) || (c =? 160) || (c =? 5760) ||
   (8192 <=? c) && (c <=? 8202) ||
   (c =? 8232) || (c =? 8233) || (c =? 8239) || (c =? 8287) ||
   (c =? 12288) || (c =? 65279))%N.

Fixpoint trimStart (s : str) : str :=
  match s with
  | c :: s' => if isWhiteSpace c then trimStart s' else s
  | [] => []
  end.

Definition trimEnd (s : str) : str := reverse (trimStart (reverse s)).

Definition trim (s : str) : str := trimEnd (trimStart s).

(** [s.split(sep)] for a separator of one code unit. The result is never
    empty: the empty string splits into one empty piece. *)
Fixpoint split (s : str) (sep : N) : list str :=
  match s with
  | [] => [[]]
  | c :: s' =>
      if (c =? sep)%N then [] :: split s' sep
      else match split s' sep with
           | piece :: rest => (c :: piece) :: rest
           | [] => [[c]]
           end
  end.

(** [s.startsWith(p)]. *)
Fixpoint startsWith (s p : str) : bool :=
  match p, s with
  | [], _ => true
  | _ :: _, [] => false
  | x :: p', c :: s' => (c =? x)%N && startsWith s' p'
  end.

(** [s.indexOf(c)] for a search string of one code unit: the index of
    the first occurrence, or -1. *)
Fixpoint indexOf_from (s : str) (c : N) (i : Z) : Z :=
  match s with
  | [] => -1
  | x :: s' => if (x =? c)%N then i else indexOf_from s' c (i + 1)
  end.

Definition indexOf (s : str) (c : N) : Z := indexOf_from s c 0.

Definition clamp (x lo hi : Z) : Z := Z.max lo (Z.min x hi).

(** [s.substr(start, length)] (ECMAScript B.2.2.1); [length = None] is
    the call with one argument. A negative start counts from the end, a
    negative length is clamped to zero. *)
Definition substr (s : str) (start : Z) (len : option Z) : str :=
  let size := Z.of_nat (length s) in
  let intStart := if start <? 0 then Z.max (size + start) 0
                  else Z.min start size in
  let intLength := match len with
                   | None => size
                   | Some l => clamp l 0 size
                   end in
  let intEnd := Z.min (intStart + intLength) size in
  take (Z.to_nat (intEnd - intStart)) (drop (Z.to_nat intStart) s).

(** The truthiness of a string: only the empty string is falsy. *)
Definition truthy (s : str) : bool :=
  match s with [] => false | _ => true end.

(** A plain object used as a [Record<string, string>]: its own
    properties. The assignment [o[k] = v] creates or overwrites the own
    property [k], except for the key [__proto__], which reaches the
    accessor of [Object.prototype]: its setter ignores a value that is
    neither an object nor null, so a string assigned there is dropped. *)
Abbreviation obj := (gmap (list N) (list N)).

Definition proto_key : str := lit "__proto__".

Definition obj_set (o : obj) (k v : str) : obj :=
  if decide (k = proto_key) then o else <[k := v]> o.

End JS.

(** ** Gradle properties *)

(** The code units of the one-character literals ['\n'], ['#'] and ['=']. *)
Definition CHAR_NEWLINE : N := 10.
Definition CHAR_HASH : N := 35.
Definition CHAR_EQUALS : N := 61.

(** The body of the loop of [parseGradleProperties], with [continue] as
    returning the object unchanged. *)
Definition parseGradleProperties_line (result : JS.obj) (line : JS.str) : JS.obj :=
  let line := JS.trim line in
  if negb (JS.truthy line) || JS.startsWith line [CHAR_HASH] then result
  else
    let sepIndex := JS.indexOf line CHAR_EQUALS in
    let key := JS.substr line 0 (Some sepIndex) in
    let value := JS.substr line (sepIndex + 1) None in
    JS.obj_set result key value.

Definition parseGradleProperties (content : JS.str) : JS.obj :=
  foldl parseGradleProperties_line ∅ (JS.split content CHAR_NEWLINE).

(** *** The parser as the specification words it

    The two definitions below do not come from the source: they spell out
    the wording of the specification, for comparison with
    [parseGradleProperties]. *)

Fixpoint before_first (c : N) (s : JS.str) : JS.str :=
  match s with
  | [] => []
  | x :: s' => if (x =? c)%N then [] else x :: before_first c s'
  end.

Fixpoint after_first (c : N) (s : JS.str) : JS.str :=
  match s with
  | [] => []
  | x :: s' => if (x =? c)%N then s' else after_first c s'
  end.

Definition blank (l : JS.str) : bool := forallb JS.isWhiteSpace l.

(** As the specification words it: blank lines and lines starting with
    [#] are ignored, every other line is cut at its first [=], and the
    value is not trimmed. *)
Definition line_entry_as_worded (l : JS.str) : option (JS.str * JS.str) :=
  if blank l || JS.startsWith l [CHAR_HASH] then None
  else Some (before_first CHAR_EQUALS l, after_first CHAR_EQUALS l).

(** With the trimming of the whole line the source does first. *)
Definition line_entry (l : JS.str) : option (JS.str * JS.str) :=
  line_entry_as_worded (JS.trim l).

(** The object a sequence of entries denotes: a later entry for a key
    replaces an earlier one. *)
Definition properties_of (entries : list (JS.str * JS.str)) : JS.obj :=
  list_to_map (reverse (filter (λ kv, kv.1 ≠ JS.proto_key) entries)).

(** The entry of a line for every input: as [line_entry] when the trimmed
    line contains [=]; a line that is not ignored and has no [=] gives the
    empty key and the whole trimmed line as its value. *)
Definition line_binding (l : JS.str) : option (JS.str * JS.str) :=
  match line_entry l with
  | Some e =>
      Some (if bool_decide (CHAR_EQUALS ∈ JS.trim l) then e
            else ([], JS.trim l))
  | None => None
  end.

(** The input of the example of the specification. *)
Definition example_properties : JS.str :=
  JS.lit "a=1" ++ [CHAR_NEWLINE] ++ JS.lit "# comment" ++ [CHAR_NEWLINE] ++
  [CHAR_NEWLINE] ++ JS.lit "b=two=three" ++ [CHAR_NEWLINE].

(** A line that the parser keeps: not empty after trimming and not a
    comment. *)
Definition kept (l : JS.str) : Prop :=
  JS.trim l ≠ [] ∧ JS.startsWith (JS.trim l) [CHAR_HASH] = false.

(** A kept line whose key is the empty string. *)
Definition empty_key_line (l : JS.str) : Prop :=
  kept l ∧ (CHAR_EQUALS ∉ JS.trim l ∨ head (JS.trim l) = Some CHAR_EQUALS).

(** ** Buffers *)

Module Buffer.

Abbreviation t := (list byte).

#[global] Instance byte_eqdec : EqDecision byte := Byte.byte_eq_dec.

(** [Buffer.alloc(size)]: zero-filled. *)
Definition alloc (size : nat) : t := replicate size x00.

(** [buf.slice(start, end)] for indices within range. *)
Definition slice (buf : t) (start stop : nat) : t :=
  take (stop - start) (drop start buf).

Definition hexDigit (n : N) : N :=
  (if n <? 10 then 48 + n else 87 + n)%N.

(** [buf.toString('hex')]: two lowercase hexadecimal digits per byte. *)
Definition toString_hex (buf : t) : JS.str :=
  buf ≫= (λ x, let n := Byte.to_N x in
                [hexDigit (n / 16); hexDigit (n mod 16)])%N.

(** [buf.readUInt32LE(offset)]; [None] is the range error Node throws
    when fewer than four bytes are left at [offset]. *)
Definition readUInt32LE (buf : t) (offset : nat) : option N :=
  match drop offset buf with
  | b0 :: b1 :: b2 :: b3 :: _ =>
      Some (Byte.to_N b0 + Byte.to_N b1 * 2 ^ 8 +
            Byte.to_N b2 * 2 ^ 16 + Byte.to_N b3 * 2 ^ 24)%N
  | _ => None
  end.

End Buffer.

(** ** The file system, the host and the effects of the module *)

(** Files hold bytes; directories are recorded by path. Paths are the
    strings the source builds. *)
Record filesystem := {
  files : gmap (list N) (list byte);
  dirs : gset (list N);
}.

(** The calls into [fs-extra] the source makes. A descriptor returned by
    [fs.open] stands for the file it was opened on; the only read made
    through one is the first, at position 0. *)
Inductive fs_call :=
| EnsureDir (dir : JS.str)
| WriteFile (file : JS.str) (data : JS.str)
| ReadFile (file : JS.str)
| ReadJSON (file : JS.str)
| Remove (path : JS.str)
| Open (file : JS.str)
| Read (fd : JS.str)
| Close (fd : JS.str).

(** How the child process started by [spawnAsync] ended. *)
Inductive spawn_result :=
| Exited (status : Z)
| SpawnFailed (code : JS.str).

Inductive event :=
| FsCall (c : fs_call)
| Spawn (command : JS.str) (args : list JS.str).

(** What a call can throw or reject with. *)
Inductive error :=
| FsError (call : fs_call) (code : JS.str)
| MissingModule (moduleId : JS.str)
| UnsupportedPlatform (platform : JS.str)
| SpawnError (r : spawn_result)
| SyntaxError
| ComposeError
| RangeError
| InvalidHermesBundle.

Inductive result (A : Type) :=
| Ok (a : A)
| Err (e : error).
Arguments Ok {A} a.
Arguments Err {A} e.

Record world := {
  fs : filesystem;
  log : list event;
}.

(** A computation of the module: it runs in a world, leaves a world and
    either returns or throws. An [async] function is run to completion. *)
Definition M (A : Type) : Type := world → result A * world.

Definition ret {A} (a : A) : M A := λ w, (Ok a, w).

Definition throw {A} (e : error) : M A := λ w, (Err e, w).

Definition bind {A B} (m : M A) (k : A → M B) : M B :=
  λ w, match m w with
       | (Ok a, w1) => k a w1
       | (Err e, w1) => (Err e, w1)
       end.

Definition lift {A} (r : result A) : M A := λ w, (r, w).

Notation "x <- m ;; k" := (bind m (λ x, k))
  (at level 100, m at next level, right associativity).
Notation "m ;; k" := (bind m (λ _, k))
  (at level 100, right associativity).

(** [try { body } finally { finalizer }]: the finalizer runs whatever the
    body did; when the finalizer throws, its error is the outcome. *)
Definition try_finally {A} (body : M A) (finalizer : M unit) : M A :=
  λ w, let '(r, w1) := body w in
       match finalizer w1 with
       | (Ok _, w2) => (r, w2)
       | (Err e, w2) => (Err e, w2)
       end.

Definition ENOENT : JS.str := JS.lit "ENOENT".

(** [path.join(dir, name)] on a POSIX host for the calls the source
    makes: [dir] is a normalised path without a trailing separator and
    [name] is one plain component, so joining and normalising is
    concatenation with the separator. *)
Definition path_join (dir name : JS.str) : JS.str :=
  dir ++ JS.lit "/" ++ name.

(** [p] is [dir] or lies below it. *)
Definition inside (dir p : JS.str) : bool :=
  bool_decide (p = dir) || JS.startsWith p (dir ++ JS.lit "/").

Definition exists_in (s : filesystem) (p : JS.str) : Prop :=
  is_Some (files s !! p) ∨ p ∈ dirs s.

Section Host.

(** The type of parsed JSON documents. *)
Context {json : Type}.

(** What the module takes from the process, the operating system, the
    project's [node_modules] and the libraries it calls. *)
Record host := {
  os_tmpdir : JS.str;
  os_platform : JS.str;
  process_pid : N;
  (** [resolveFrom.silent(fromDirectory, moduleId)]; [None] is
      [undefined] *)
  resolveFrom_silent : JS.str → JS.str → option JS.str;
  (** the bytes [fs.writeFile] stores for a string *)
  utf8 : JS.str → list byte;
  (** [JSON.parse]; [None] is its [SyntaxError] *)
  JSON_parse : JS.str → option json;
  JSON_stringify : json → JS.str;
  (** decoding and parsing of a file's bytes by [fs.readJSON] *)
  readJSON_parse : list byte → option json;
  (** [require(resolvedPath)] of the composer; [None] is a throw *)
  require_composeSourceMaps : JS.str → list json → option json;
  (** the program [spawnAsync] runs: how it ends and what it leaves *)
  spawn : JS.str → list JS.str → filesystem → spawn_result * filesystem;
  (** a file-system call the operating system refuses, with its code *)
  fs_fault : fs_call → filesystem → option JS.str;
  (** of two rejections under [Promise.all], whether the second is
      delivered first *)
  second_rejects_first : bool;
}.

Variable h : host.

(** A call into [fs-extra]: logged, refused by the host or run. *)
Definition fs_op {A} (c : fs_call)
    (run : filesystem → result A * filesystem) : M A :=
  λ w, let l := log w ++ [FsCall c] in
       match fs_fault h c (fs w) with
       | Some code => (Err (FsError c code), {| fs := fs w; log := l |})
       | None => let '(r, s) := run (fs w) in (r, {| fs := s; log := l |})
       end.

Definition fs_ensureDir (dir : JS.str) : M unit :=
  fs_op (EnsureDir dir)
    (λ s, (Ok (), {| files := files s; dirs := {[dir]} ∪ dirs s |})).

Definition fs_writeFile (file data : JS.str) : M unit :=
  fs_op (WriteFile file data)
    (λ s, (Ok (), {| files := <[file := utf8 h data]> (files s);
                     dirs := dirs s |})).

Definition fs_readFile (file : JS.str) : M Buffer.t :=
  fs_op (ReadFile file)
    (λ s, match files s !! file with
          | Some data => (Ok data, s)
          | None => (Err (FsError (ReadFile file) ENOENT), s)
          end).

Definition fs_readJSON (file : JS.str) : M json :=
  fs_op (ReadJSON file)
    (λ s, match files s !! file with
          | Some data =>
              match readJSON_parse h data with
              | Some j => (Ok j, s)
              | None => (Err SyntaxError, s)
              end
          | None => (Err (FsError (ReadJSON file) ENOENT), s)
          end).

(** [fs.remove(path)]: the path and everything below it go; removing
    what does not exist succeeds. *)
Definition fs_remove (path : JS.str) : M unit :=
  fs_op (Remove path)
    (λ s, (Ok (),
           {| files := filter (λ kv, inside path kv.1 = false) (files s);
              dirs := filter (λ p, inside path p = false) (dirs s) |})).

Definition fs_open (file : JS.str) : M JS.str :=
  fs_op (Open file)
    (λ s, match files s !! file with
          | Some _ => (Ok file, s)
          | None => (Err (FsError (Open file) ENOENT), s)
          end).

(** [fs.read(fd, buffer, offset, length, null)]: up to [length] bytes
    from the start of the file overwrite [buffer] from [offset]; the
    buffer as it is after the call is returned. A file with fewer bytes
    gives a short read, not an error. *)
Definition fs_read (fd : JS.str) (buffer : Buffer.t) (offset length : nat)
    : M Buffer.t :=
  fs_op (Read fd)
    (λ s, match files s !! fd with
          | Some data =>
              let chunk := take length data in
              (Ok (take offset buffer ++ chunk ++
                   drop (offset + List.length chunk) buffer), s)
          | None => (Err (FsError (Read fd) (JS.lit "EBADF")), s)
          end).

Definition fs_close (fd : JS.str) : M unit :=
  fs_op (Close fd) (λ s, (Ok (), s)).

(** [spawnAsync(command, args)] rejects unless the child exits with 0. *)
Definition spawnAsync (command : JS.str) (args : list JS.str) : M unit :=
  λ w, let '(r, s) := spawn h command args (fs w) in
       let w1 := {| fs := s; log := log w ++ [Spawn command args] |} in
       match r with
       | Exited 0 => (Ok (), w1)
       | _ => (Err (SpawnError r), w1)
       end.

(** [Promise.all([p, q])]: both are started, in this order; one
    rejection rejects the whole, and of two the one delivered first. *)
Definition Promise_all {A B} (p : M A) (q : M B) : M (A * B) :=
  λ w, let '(ra, w1) := p w in
       let '(rb, w2) := q w1 in
       (match ra, rb with
        | Ok a, Ok b => Ok (a, b)
        | Err e, Ok _ => Err e
        | Ok _, Err e => Err e
        | Err e1, Err e2 => Err (if second_rejects_first h then e2 else e1)
        end, w2).

(** *** The build *)

Record HermesBundleOutput := {
  hbc : Buffer.t;
  sourcemap : JS.str;
}.

Definition getHermesCommandPlatform : result JS.str :=
  let platform := os_platform h in
  if decide (platform = JS.lit "darwin") then Ok (JS.lit "osx-bin/hermesc")
  else if decide (platform = JS.lit "linux") then
    Ok (JS.lit "linux64-bin/hermesc")
  else if decide (platform = JS.lit "win32") then
    Ok (JS.lit "win64-bin/hermesc.exe")
  else Err (UnsupportedPlatform platform).

Definition getHermesCommand (projectRoot : JS.str) : result JS.str :=
  match getHermesCommandPlatform with
  | Ok platformExecutable =>
      let moduleId := JS.lit "hermes-engine/" ++ platformExecutable in
      match resolveFrom_silent h projectRoot moduleId with
      | Some resolvedPath =>
          if negb (JS.truthy resolvedPath) then Err (MissingModule moduleId)
          else Ok resolvedPath
      | None => Err (MissingModule moduleId)
      end
  | Err e => Err e
  end.

Definition importMetroSourceMapFromProject (projectRoot : JS.str)
    : result (list json → option json) :=
  let moduleId := JS.lit "metro-source-map/src/composeSourceMaps" in
  match resolveFrom_silent h projectRoot moduleId with
  | Some resolvedPath =>
      if negb (JS.truthy resolvedPath) then Err (MissingModule moduleId)
      else Ok (require_composeSourceMaps h resolvedPath)
  | None => Err (MissingModule moduleId)
  end.

Definition createHermesSourcemapAsync
    (projectRoot sourcemap hermesMapFile : JS.str) : M JS.str :=
  composeSourceMaps <- lift (importMetroSourceMapFromProject projectRoot);;
  bundlerSourcemap <- lift (match JSON_parse h sourcemap with
                            | Some j => Ok j
                            | None => Err SyntaxError
                            end);;
  hermesSourcemap <- fs_readJSON hermesMapFile;;
  match composeSourceMaps [bundlerSourcemap; hermesSourcemap] with
  | Some composed => ret (JSON_stringify h composed)
  | None => throw ComposeError
  end.

(** The workspace of a build: [tempDir] of [buildHermesBundleAsync]. *)
Definition tempDir : JS.str :=
  path_join (os_tmpdir h)
    (JS.lit "expo-bundler-" ++ JS.lit (pretty (process_pid h))).

(** The [try] block of [buildHermesBundleAsync]. *)
Definition buildHermesBundle_body
    (projectRoot code map : JS.str) (optimize : bool)
    : M HermesBundleOutput :=
  let tempBundleFile := path_join tempDir (JS.lit "index.bundle") in
  let tempSourcemapFile := path_join tempDir (JS.lit "index.bundle.map") in
  fs_writeFile tempBundleFile code;;
  fs_writeFile tempSourcemapFile map;;
  let tempHbcFile := path_join tempDir (JS.lit "index.hbc") in
  hermesCommand <- lift (getHermesCommand projectRoot);;
  let args := [JS.lit "-emit-binary"; JS.lit "-out"; tempHbcFile;
               tempBundleFile; JS.lit "-output-source-map"] in
  let args := if optimize then args ++ [JS.lit "-O"] else args in
  spawnAsync hermesCommand args;;
  r <- Promise_all
         (fs_readFile tempHbcFile)
         (createHermesSourcemapAsync projectRoot map
            (tempHbcFile ++ JS.lit ".map"));;
  ret {| hbc := r.1; sourcemap := r.2 |}.

Definition buildHermesBundleAsync
    (projectRoot code map : JS.str) (optimize : bool)
    : M HermesBundleOutput :=
  fs_ensureDir tempDir;;
  try_finally
    (buildHermesBundle_body projectRoot code map optimize)
    (fs_remove tempDir).

(** *** The header of a bytecode bundle *)

Definition HERMES_MAGIC_HEADER : JS.str := JS.lit "c61fbc03c103191f".

Definition readHermesHeaderAsync (file : JS.str) : M Buffer.t :=
  fd <- fs_open file;;
  let buffer := Buffer.alloc 12 in
  buffer <- fs_read fd buffer 0 12;;
  fs_close fd;;
  ret buffer.

Definition isHermesBytecodeBundleAsync (file : JS.str) : M bool :=
  header <- readHermesHeaderAsync file;;
  ret (bool_decide
         (Buffer.toString_hex (Buffer.slice header 0 8) = HERMES_MAGIC_HEADER)).

Definition getHermesBytecodeBundleVersionAsync (file : JS.str) : M N :=
  header <- readHermesHeaderAsync file;;
  if bool_decide
       (Buffer.toString_hex (Buffer.slice header 0 8) ≠ HERMES_MAGIC_HEADER)
  then throw InvalidHermesBundle
  else match Buffer.readUInt32LE header 8 with
       | Some version => ret version
       | None => throw RangeError
       end.

End Host.

Arguments host : clear implicits.

(** The file can be opened, read and closed in [s], and holds [data]. *)
Definition readable {json} (h : host json) (s : filesystem)
    (file : JS.str) (data : list byte) : Prop :=
  files s !! file = Some data ∧
  fs_fault h (Open file) s = None ∧
  fs_fault h (Read file) s = None ∧
  fs_fault h (Close file) s = None.

(** The magic constant as bytes: [c6 1f bc 03 c1 03 19 1f]. *)
Definition magic_bytes : list byte :=
  [xc6; x1f; xbc; x03; xc1; x03; x19; x1f].

(** A world with the given files and directories and nothing logged. *)
Definition start (s : filesystem) : world := {| fs := s; log := [] |}.

Definition is_spawn (e : event) : bool :=
  match e with
  | Spawn _ _ => true
  | FsCall _ => false
  end.

(** The arguments the specification gives for the compiler. *)
Definition expected_args {json} (h : host json) (optimize : bool)
    : list JS.str :=
  [JS.lit "-emit-binary"; JS.lit "-out";
   path_join (tempDir h) (JS.lit "index.hbc");
   path_join (tempDir h) (JS.lit "index.bundle");
   JS.lit "-output-source-map"] ++
  (if optimize then [JS.lit "-O"] else []).

(** The host refuses neither the creation of the workspace nor the
    writing of the two staged files. *)
Definition staging_faultless {json} (h : host json) : Prop :=
  ∀ (c : fs_call) (s : filesystem),
    match c with
    | EnsureDir _ | WriteFile _ _ => fs_fault h c s = None
    | _ => True
    end.

(** A computation that starts no process. *)
Definition quiet {A} (m : M A) : Prop :=
  ∀ w, ∃ evs, log (m w).2 = log w ++ evs ∧ filter is_spawn evs = [].

(** ** Source maps *)

Module SourceMap.

Record position := { line : N; column : N }.

(** One mapping: a position of the generated artifact, and the source
    file and position it comes from. *)
Record segment := {
  generated : position;
  source : JS.str;
  original : position;
}.

Abbreviation t := (list segment).

#[global] Instance position_eq_dec : EqDecision position.
Proof. solve_decision. Defined.

#[global] Instance segment_eq_dec : EqDecision segment.
Proof. solve_decision. Defined.

(** Modelled from the spec: the lookup of a generated position in a map,
    as the entry recorded for exactly that position. *)
Definition originalPositionFor (m : t) (p : position) : option segment :=
  find (λ s, bool_decide (generated s = p)) m.

(** Modelled from the spec: the composer of [metro-source-map] is loaded
    from the project and is not part of this module. The specification
    has it keep every segment of the map nearest to the final artifact
    (the last of the list), replacing the source reference of each by
    what the map before it gives for that position; a segment the earlier
    map has no entry for passes through unchanged. *)
Definition through (earlier : t) (s : segment) : segment :=
  match originalPositionFor earlier (original s) with
  | Some o => {| generated := generated s;
                 source := source o;
                 original := original o |}
  | None => s
  end.

(** Modelled from the spec: composition of a list of maps ordered from
    the one nearest to the original sources to the one nearest to the
    final artifact; an empty list is refused. *)
Fixpoint composeSourceMaps (maps : list t) : option t :=
  match maps with
  | [] => None
  | m :: rest =>
      match rest with
      | [] => Some m
      | _ :: _ => fmap (M := option) (fmap (M := list) (through m))
                    (composeSourceMaps rest)
      end
  end.

End SourceMap.

(** ** Example hosts and inputs

    A Linux host with a stub compiler that copies its input to the output
    path and writes a fixed source map next to it, the set-up the
    specification's testable properties describe. JSON texts are looked
    up in a table, since the syntax of JSON plays no role here. *)

(** The bundler's map of the example: bundle line 3 comes from line 1 of
    [a.js]. *)
Definition bundler_map : SourceMap.t :=
  [ {| SourceMap.generated := {| SourceMap.line := 3; SourceMap.column := 0 |};
       SourceMap.source := JS.lit "a.js";
       SourceMap.original := {| SourceMap.line := 1; SourceMap.column := 0 |} |} ].

(** The compiler's map of the example: bytecode offset 10 comes from
    bundle line 3. *)
Definition compiler_map : SourceMap.t :=
  [ {| SourceMap.generated := {| SourceMap.line := 1; SourceMap.column := 10 |};
       SourceMap.source := JS.lit "index.bundle";
       SourceMap.original := {| SourceMap.line := 3; SourceMap.column := 0 |} |} ].

(** The composed map of the example: bytecode offset 10 comes from line 1
    of [a.js]. *)
Definition composed_map : SourceMap.t :=
  [ {| SourceMap.generated := {| SourceMap.line := 1; SourceMap.column := 10 |};
       SourceMap.source := JS.lit "a.js";
       SourceMap.original := {| SourceMap.line := 1; SourceMap.column := 0 |} |} ].

(** The bytes of an ASCII string. *)
Definition ascii_bytes (s : JS.str) : list byte := omap Byte.of_N s.

Definition example_parse (s : JS.str) : option SourceMap.t :=
  if decide (s = JS.lit "{bundler map}") then Some bundler_map
  else if decide (s = JS.lit "{compiler map}") then Some compiler_map
  else None.

Definition example_stringify (m : SourceMap.t) : JS.str :=
  if decide (m = composed_map) then JS.lit "{composed map}"
  else JS.lit "{}".

(** The stub compiler: reads the file named by its fourth argument,
    copies it to the file named by its third and emits its map. *)
Definition stub_compiler (command : JS.str) (args : list JS.str)
    (s : filesystem) : spawn_result * filesystem :=
  match args !! 2%nat, args !! 3%nat with
  | Some out, Some input =>
      match files s !! input with
      | Some data =>
          (Exited 0,
           {| files := <[out ++ JS.lit ".map" := ascii_bytes (JS.lit "{compiler map}")]>
                         (<[out := data]> (files s));
              dirs := dirs s |})
      | None => (Exited 1, s)
      end
  | _, _ => (Exited 1, s)
  end.

(** A compiler that exits with status 1 and writes nothing. *)
Definition failing_compiler (command : JS.str) (args : list JS.str)
    (s : filesystem) : spawn_result * filesystem :=
  (Exited 1, s).

Definition example_host
    (compiler : JS.str → list JS.str → filesystem → spawn_result * filesystem)
    (fault : fs_call → filesystem → option JS.str) : host SourceMap.t :=
  {| os_tmpdir := JS.lit "/tmp";
     os_platform := JS.lit "linux";
     process_pid := 4242;
     resolveFrom_silent := λ root moduleId,
       Some (root ++ JS.lit "/node_modules/" ++ moduleId);
     utf8 := ascii_bytes;
     JSON_parse := example_parse;
     JSON_stringify := example_stringify;
     readJSON_parse := λ data, example_parse (Byte.to_N <$> data);
     require_composeSourceMaps := λ _, SourceMap.composeSourceMaps;
     spawn := compiler;
     fs_fault := fault;
     second_rejects_first := false |}.

Definition no_fault (c : fs_call) (s : filesystem) : option JS.str := None.

(** The removal of anything is refused. *)
Definition remove_fault (c : fs_call) (s : filesystem) : option JS.str :=
  match c with
  | Remove _ => Some (JS.lit "EBUSY")
  | _ => None
  end.

Definition empty_fs : filesystem := {| files := ∅; dirs := ∅ |}.

(** ** Further notions for the parser of Gradle properties *)

(** The line [l] makes the loop of [parseGradleProperties] bind [k] to
    [v]: it is kept, [k] is not [__proto__], and either the trimmed line
    is [k], an [=] and [v] with no [=] in [k], or it has no [=] at all,
    [k] is empty and [v] is the whole trimmed line. *)
Definition assigns (l k v : JS.str) : Prop :=
  kept l ∧ k ≠ JS.proto_key ∧
  (((CHAR_EQUALS ∉ k) ∧ JS.trim l = k ++ CHAR_EQUALS :: v) ∨
   ((CHAR_EQUALS ∉ JS.trim l) ∧ k = [] ∧ v = JS.trim l)).

(** Lines put together with an end-of-line sequence between them. *)
Fixpoint unlines (eol : JS.str) (lines : list JS.str) : JS.str :=
  match lines with
  | [] => []
  | l :: rest =>
      match rest with
      | [] => l
      | _ :: _ => l ++ eol ++ unlines eol rest
      end
  end.

(** The code unit of a carriage return. *)
Definition CHAR_RETURN : N := 13.

(** A string of white space only. *)
Definition white (s : JS.str) : Prop :=
  Forall (λ c, JS.isWhiteSpace c = true) s.

(** ** Further notions for the build *)

#[global] Instance spawn_result_eq_dec : EqDecision spawn_result.
Proof. solve_decision. Defined.

(** The executable of the compiler for each supported platform, as
    [getHermesCommandPlatform] lists them. *)
Definition hermes_executables : list (JS.str * JS.str) :=
  [(JS.lit "darwin", JS.lit "osx-bin/hermesc");
   (JS.lit "linux", JS.lit "linux64-bin/hermesc");
   (JS.lit "win32", JS.lit "win64-bin/hermesc.exe")].

(** The file system with the bundle and its map staged in the workspace:
    what the compiler finds when it starts. *)
Definition staged {json} (h : host json) (code map : JS.str)
    (s : filesystem) : filesystem :=
  {| files :=
       <[path_join (tempDir h) (JS.lit "index.bundle.map") := utf8 h map]>
         (<[path_join (tempDir h) (JS.lit "index.bundle") := utf8 h code]>
            (files s));
     dirs := {[tempDir h]} ∪ dirs s |}.

(** The file system without [path] and what lies below it. *)
Definition without (path : JS.str) (s : filesystem) : filesystem :=
  {| files := filter (λ kv, inside path kv.1 = false) (files s);
     dirs := filter (λ p, inside path p = false) (dirs s) |}.



(** ** Regular expressions

    The fragment of ECMAScript regular expressions the source uses, with
    the [m] flag: literal characters, [.], [\s], [^], sequencing, [*] and
    [+] on a single character class, and [?]. *)

Module RegExp.

Definition isLineTerminator (c : N) : bool :=
  ((c =? 10) || (c =? 13) || (c =? 8232) || (c =? 8233))%N.

Inductive atom :=
| Char (c : N)
| Dot
| Space.

(** The characters an atom matches: [.] anything but a line terminator,
    [\s] white space and line terminators. *)
Definition atom_matches (a : atom) (c : N) : bool :=
  match a with
  | Char x => (c =? x)%N
  | Dot => negb (isLineTerminator c)
  | Space => JS.isWhiteSpace c
  end.

Inductive t :=
| Empty
| Atom (a : atom)
| LineStart
| Seq (r1 r2 : t)
| Star (a : atom)
| Plus (a : atom)
| Opt (r : t).

(** The characters of [s] one after the other, then [r]. *)
Definition Str (s : JS.str) (r : t) : t :=
  foldr (λ c r, Seq (Atom (Char c)) r) r s.

(** [^] with the [m] flag holds at the start of the input and after a line
    terminator; [prev] is the character before the current position. *)
Definition at_line_start (prev : option N) : bool :=
  match prev with
  | None => true
  | Some c => isLineTerminator c
  end.

(** Backtracking matching from a position, the rest of the pattern being
    the continuation [k]; the position is the character before it and the
    input from it on. [a*] is greedy. *)
Fixpoint star (a : atom) (prev : option N) (s : JS.str)
    (k : option N → JS.str → bool) : bool :=
  match s with
  | c :: s' => (atom_matches a c && star a (Some c) s' k) || k prev s
  | [] => k prev s
  end.

Fixpoint run (r : t) (prev : option N) (s : JS.str)
    (k : option N → JS.str → bool) : bool :=
  match r with
  | Empty => k prev s
  | Atom a =>
      match s with
      | c :: s' => atom_matches a c && k (Some c) s'
      | [] => false
      end
  | LineStart => at_line_start prev && k prev s
  | Seq r1 r2 => run r1 prev s (λ prev' s', run r2 prev' s' k)
  | Star a => star a prev s k
  | Plus a =>
      match s with
      | c :: s' => atom_matches a c && star a (Some c) s' k
      | [] => false
      end
  | Opt r' => run r' prev s k || k prev s
  end.

(** [s.search(r)]: the index of the first position from which [r]
    matches, or -1. *)
Fixpoint search_from (r : t) (prev : option N) (s : JS.str) (i : Z) : Z :=
  if run r prev s (λ _ _, true) then i
  else match s with
       | [] => -1
       | c :: s' => search_from r (Some c) s' (i + 1)
       end.

Definition search (s : JS.str) (r : t) : Z := search_from r None s 0.

(** The character before the position reached after reading [s]. *)
Definition last_of (prev : option N) (s : JS.str) : option N :=
  match last s with
  | Some c => Some c
  | None => prev
  end.

(** What a pattern matches, read off the pattern: [matches r prev s] when
    [r] matches exactly the characters [s] at a position preceded by
    [prev]. *)
Inductive matches : t → option N → JS.str → Prop :=
| matches_Empty prev : matches Empty prev []
| matches_Atom a c prev :
    atom_matches a c = true → matches (Atom a) prev [c]
| matches_LineStart prev :
    at_line_start prev = true → matches LineStart prev []
| matches_Seq r1 r2 prev s1 s2 :
    matches r1 prev s1 → matches r2 (last_of prev s1) s2 →
    matches (Seq r1 r2) prev (s1 ++ s2)
| matches_Star a prev s :
    Forall (λ c, atom_matches a c = true) s → matches (Star a) prev s
| matches_Plus a prev s :
    s ≠ [] → Forall (λ c, atom_matches a c = true) s →
    matches (Plus a) prev s
| matches_Opt_some r prev s : matches r prev s → matches (Opt r) prev s
| matches_Opt_none r prev : matches (Opt r) prev [].

End RegExp.

(** ** The engine of the project *)

Definition CHAR_QUOTE : N := 34.

(** [/^\s*enableHermes:\s*\(findProperty\('expo.jsEngine'\) \?: "jsc"\) ==
    "hermes",?\s+/m]; the dot of [expo.jsEngine] is not escaped in the
    source and matches any character. *)
Definition props_reference_pattern : RegExp.t :=
  RegExp.Seq RegExp.LineStart
    (RegExp.Seq (RegExp.Star RegExp.Space)
       (RegExp.Str (JS.lit "enableHermes:")
          (RegExp.Seq (RegExp.Star RegExp.Space)
             (RegExp.Str (JS.lit "(findProperty('expo")
                (RegExp.Seq (RegExp.Atom RegExp.Dot)
                   (RegExp.Str
                      (JS.lit "jsEngine') ?: " ++ [CHAR_QUOTE] ++
                       JS.lit "jsc" ++ [CHAR_QUOTE] ++ JS.lit ") == " ++
                       [CHAR_QUOTE] ++ JS.lit "hermes" ++ [CHAR_QUOTE])
                      (RegExp.Seq
                         (RegExp.Opt (RegExp.Atom (RegExp.Char 44)))
                         (RegExp.Plus RegExp.Space)))))))).

(** [/^\s*enableHermes:\s*true,?\s+/m] *)
Definition enable_hermes_pattern : RegExp.t :=
  RegExp.Seq RegExp.LineStart
    (RegExp.Seq (RegExp.Star RegExp.Space)
       (RegExp.Str (JS.lit "enableHermes:")
          (RegExp.Seq (RegExp.Star RegExp.Space)
             (RegExp.Str (JS.lit "true")
                (RegExp.Seq
                   (RegExp.Opt (RegExp.Atom (RegExp.Char 44)))
                   (RegExp.Plus RegExp.Space)))))).

(** The part of [ExpoConfig] the module reads. *)
Record AndroidConfig := { jsEngine : option JS.str }.

Record ExpoConfig := { android : option AndroidConfig }.

Definition isEnableHermesManaged (expoConfig : ExpoConfig)
    (platform : JS.str) : bool :=
  if decide (platform = JS.lit "android") then
    match android expoConfig with
    | Some a => bool_decide (jsEngine a = Some (JS.lit "hermes"))
    | None => false
    end
  else false.

Section Engine.

Context {json : Type} (h : host json).

(** The string [fs.readFile(path, 'utf8')] gives for the bytes of a
    file. *)
Variable utf8_decode : list byte → JS.str.

(** [fs.existsSync(path)]: a synchronous probe, which never throws. *)
Definition fs_existsSync (path : JS.str) : M bool :=
  λ w, (Ok (bool_decide (is_Some (files (fs w) !! path) ∨ path ∈ dirs (fs w))),
        w).

(** [fs.readFile(path, 'utf8')] *)
Definition fs_readFile_utf8 (path : JS.str) : M JS.str :=
  data <- fs_readFile h path;;
  ret (utf8_decode data).

(** The two checks of [maybeInconsistentEngineAndroidAsync]; each gives
    whether the function returns [true] at that point. *)
Definition check_build_gradle (projectRoot : JS.str) (isHermesManaged : bool)
    : M bool :=
  let appBuildGradlePath :=
    path_join (path_join (path_join projectRoot (JS.lit "android"))
                 (JS.lit "app")) (JS.lit "build.gradle") in
  found <- fs_existsSync appBuildGradlePath;;
  if found : bool then
    content <- fs_readFile_utf8 appBuildGradlePath;;
    let isPropsReference :=
      0 <=? RegExp.search content props_reference_pattern in
    let isHermesBare := 0 <=? RegExp.search content enable_hermes_pattern in
    ret (negb isPropsReference && negb (eqb isHermesManaged isHermesBare))
  else ret false.

Definition check_gradle_properties (projectRoot : JS.str)
    (isHermesManaged : bool) : M bool :=
  let gradlePropertiesPath :=
    path_join (path_join projectRoot (JS.lit "android"))
      (JS.lit "gradle.properties") in
  found <- fs_existsSync gradlePropertiesPath;;
  if found : bool then
    content <- fs_readFile_utf8 gradlePropertiesPath;;
    let props := parseGradleProperties content in
    let isHermesBare :=
      bool_decide (props !! JS.lit "expo.jsEngine" = Some (JS.lit "hermes")) in
    ret (negb (eqb isHermesManaged isHermesBare))
  else ret false.

Definition maybeInconsistentEngineAndroidAsync (projectRoot : JS.str)
    (isHermesManaged : bool) : M bool :=
  inconsistent <- check_build_gradle projectRoot isHermesManaged;;
  if inconsistent : bool then ret true
  else
    inconsistent <- check_gradle_properties projectRoot isHermesManaged;;
    if inconsistent : bool then ret true else ret false.

Definition maybeInconsistentEngineAsync (projectRoot platform : JS.str)
    (isHermesManaged : bool) : M bool :=
  if decide (platform = JS.lit "android") then
    maybeInconsistentEngineAndroidAsync projectRoot isHermesManaged
  else ret false.

End Engine.

(** The text holds a setting of [enableHermes] whose value satisfies
    [value]: at the start of the text or right after a line terminator,
    optional white space, [enableHermes:], optional white space, the
    value, an optional comma and at least one white-space character. *)
Definition has_setting (value : JS.str → Prop) (content : JS.str) : Prop :=
  ∃ pre w1 w2 v comma w3 post,
    content = pre ++ w1 ++ JS.lit "enableHermes:" ++ w2 ++ v ++ comma ++
              w3 ++ post ∧
    RegExp.at_line_start (last pre) = true ∧
    white w1 ∧ white w2 ∧ value v ∧
    (comma = [] ∨ comma = [44%N]) ∧ w3 ≠ [] ∧ white w3.

(** The value [(findProperty('expo.jsEngine') ?: "jsc") == "hermes"], with
    any character that is not a line terminator in the place of the dot. *)
Definition props_reference_value (v : JS.str) : Prop :=
  ∃ c, RegExp.isLineTerminator c = false ∧
    v = JS.lit "(findProperty('expo" ++ [c] ++
        (JS.lit "jsEngine') ?: " ++ [CHAR_QUOTE] ++ JS.lit "jsc" ++
         [CHAR_QUOTE] ++ JS.lit ") == " ++ [CHAR_QUOTE] ++ JS.lit "hermes" ++
         [CHAR_QUOTE]).

(** The paths of the two files of the native project the check reads. *)
Definition appBuildGradlePath (projectRoot : JS.str) : JS.str :=
  path_join (path_join (path_join projectRoot (JS.lit "android"))
               (JS.lit "app")) (JS.lit "build.gradle").

Definition gradlePropertiesPath (projectRoot : JS.str) : JS.str :=
  path_join (path_join projectRoot (JS.lit "android"))
    (JS.lit "gradle.properties").

(** The text of a properties file declares Hermes: some line binds
    [expo.jsEngine] to [hermes] and no later line binds that key again. *)
Definition declares_hermes (content : JS.str) : Prop :=
  ∃ pre l post,
    JS.split content CHAR_NEWLINE = pre ++ l :: post ∧
    assigns l (JS.lit "expo.jsEngine") (JS.lit "hermes") ∧
    Forall (λ l', ∀ v', ¬ assigns l' (JS.lit "expo.jsEngine") v') post.

(** Nothing exists at the path. *)
Definition absent (s : filesystem) (path : JS.str) : Prop :=
  files s !! path = None ∧ path ∉ dirs s.

(** The decoding of the bytes of an ASCII text, for the examples. *)
Definition ascii_text (data : list byte) : JS.str := Byte.to_N <$> data.

(** A project whose [gradle.properties] declares Hermes, and one whose
    [build.gradle] enables it. *)
Definition properties_project : filesystem :=
  {| files := {[ JS.lit "/app/android/gradle.properties" :=
                   ascii_bytes (JS.lit "# engine" ++ [CHAR_NEWLINE] ++
                                JS.lit "expo.jsEngine=hermes" ++
                                [CHAR_NEWLINE]) ]};
     dirs := ∅ |}.

Definition bare_project : filesystem :=
  {| files := {[ JS.lit "/app/android/app/build.gradle" :=
                   ascii_bytes (JS.lit "project.ext.react = [" ++
                                [CHAR_NEWLINE] ++
                                JS.lit "    enableHermes: true," ++
                                [CHAR_NEWLINE] ++ JS.lit "]") ]};
     dirs := ∅ |}.



(** * Properties *)

(** ** String primitives *)

Lemma indexOf_from_absent (s : JS.str) (c : N) (i : Z) :
  c ∉ s → JS.indexOf_from s c i = -1.
Proof.
  revert i. induction s as [|x s IH]; intros i Hc; [done|].
  apply not_elem_of_cons in Hc as [Hx Hs]. simpl.
  destruct (N.eqb_spec x c); [congruence|]. by apply IH.
Qed.

Lemma indexOf_from_first (k v : JS.str) (c : N) (i : Z) :
  c ∉ k → JS.indexOf_from (k ++ c :: v) c i = i + Z.of_nat (length k).
Proof.
  revert i. induction k as [|x k IH]; intros i Hc; simpl.
  - rewrite N.eqb_refl. lia.
  - apply not_elem_of_cons in Hc as [Hx Hk].
    destruct (N.eqb_spec x c); [congruence|]. rewrite IH by done. lia.
Qed.

(** [substr] as a [take] of a [drop], once its two bounds are known. *)
Lemma substr_take_drop (s : JS.str) (start : Z) (len : option Z) (a n : nat) :
  (if start <? 0 then Z.max (Z.of_nat (length s) + start) 0
   else Z.min start (Z.of_nat (length s))) = Z.of_nat a →
  Z.min (Z.of_nat a +
         match len with
         | None => Z.of_nat (length s)
         | Some l => JS.clamp l 0 (Z.of_nat (length s))
         end) (Z.of_nat (length s)) - Z.of_nat a = Z.of_nat n →
  JS.substr s start len = take n (drop a s).
Proof.
  intros Ha Hn. unfold JS.substr. cbv zeta. rewrite Ha, Hn.
  by rewrite !Nat2Z.id.
Qed.

Lemma substr_whole (s : JS.str) : JS.substr s 0 None = s.
Proof.
  rewrite (substr_take_drop s 0 None 0 (length s)).
  - by rewrite take_ge.
  - simpl. lia.
  - lia.
Qed.

Lemma substr_negative_length (s : JS.str) : JS.substr s 0 (Some (-1)) = [].
Proof.
  rewrite (substr_take_drop s 0 (Some (-1)) 0 0); [done|simpl; lia|].
  unfold JS.clamp. lia.
Qed.

Lemma substr_key (k v : JS.str) (c : N) :
  JS.substr (k ++ c :: v) 0 (Some (Z.of_nat (length k))) = k.
Proof.
  rewrite (substr_take_drop _ 0 _ 0 (length k)).
  - by rewrite drop_0, take_app_length.
  - simpl. lia.
  - unfold JS.clamp. rewrite length_app. simpl length. lia.
Qed.

Lemma substr_value (k v : JS.str) (c : N) :
  JS.substr (k ++ c :: v) (Z.of_nat (length k) + 1) None = v.
Proof.
  rewrite (substr_take_drop _ _ None (S (length k)) (length v)).
  - replace (k ++ c :: v) with ((k ++ [c]) ++ v) by by rewrite <- app_assoc.
    rewrite drop_app_length'; [by rewrite take_ge|].
    rewrite length_app. simpl. lia.
  - rewrite length_app. simpl length.
    destruct (Z.ltb_spec (Z.of_nat (length k) + 1) 0); lia.
  - rewrite length_app. simpl length. lia.
Qed.

Lemma trimStart_suffix (s : JS.str) : ∃ p, s = p ++ JS.trimStart s.
Proof.
  induction s as [|c s [p IH]]; [by exists []|]. simpl.
  destruct (JS.isWhiteSpace c); [|by exists []].
  exists (c :: p). simpl. by f_equal.
Qed.

Lemma trimStart_head (s : JS.str) (c : N) (r : JS.str) :
  JS.trimStart s = c :: r → JS.isWhiteSpace c = false.
Proof.
  induction s as [|x s IH]; [done|]. simpl.
  destruct (JS.isWhiteSpace x) eqn:Hx; [done|]. by intros [= <- _].
Qed.

(** A trimmed string does not start with white space. *)
Lemma trim_head (s : JS.str) (c : N) (r : JS.str) :
  JS.trim s = c :: r → JS.isWhiteSpace c = false.
Proof.
  unfold JS.trim, JS.trimEnd. intros Ht.
  destruct (trimStart_suffix (reverse (JS.trimStart s))) as [p Hp].
  apply (f_equal reverse) in Hp.
  rewrite reverse_involutive, reverse_app, Ht in Hp.
  by apply (trimStart_head s c (r ++ reverse p)).
Qed.

Lemma blank_trim (s : JS.str) : blank (JS.trim s) = true → JS.trim s = [].
Proof.
  destruct (JS.trim s) as [|c r] eqn:Ht; [done|].
  simpl. by rewrite (trim_head s c r Ht).
Qed.

Lemma before_first_app (k v : JS.str) (c : N) :
  c ∉ k → before_first c (k ++ c :: v) = k.
Proof.
  induction k as [|x k IH]; simpl; intros Hc.
  - by rewrite N.eqb_refl.
  - apply not_elem_of_cons in Hc as [Hx Hk].
    destruct (N.eqb_spec x c); [congruence|]. by rewrite IH.
Qed.

Lemma after_first_app (k v : JS.str) (c : N) :
  c ∉ k → after_first c (k ++ c :: v) = v.
Proof.
  induction k as [|x k IH]; simpl; intros Hc.
  - by rewrite N.eqb_refl.
  - apply not_elem_of_cons in Hc as [Hx Hk].
    destruct (N.eqb_spec x c); [congruence|]. by rewrite IH.
Qed.

(** ** The loop body of [parseGradleProperties], case by case *)

Lemma parseGradleProperties_line_skip (m : JS.obj) (l : JS.str) :
  ¬ kept l → parseGradleProperties_line m l = m.
Proof.
  unfold kept, parseGradleProperties_line. intros Hk.
  destruct (JS.trim l) as [|c t]; [done|]. cbn [JS.truthy negb orb].
  destruct (JS.startsWith (c :: t) [CHAR_HASH]) eqn:Hs; [done|].
  destruct Hk. by split.
Qed.

Lemma parseGradleProperties_line_no_sep (m : JS.obj) (l : JS.str) :
  kept l → CHAR_EQUALS ∉ JS.trim l →
  parseGradleProperties_line m l = <[ [] := JS.trim l ]> m.
Proof.
  unfold kept, parseGradleProperties_line. intros [Hne Hs] Hc.
  rewrite Hs. destruct (JS.trim l) as [|c t] eqn:Ht; [done|].
  cbn [JS.truthy negb orb]. unfold JS.indexOf.
  rewrite indexOf_from_absent by done.
  by rewrite substr_negative_length, substr_whole.
Qed.

Lemma parseGradleProperties_line_sep (m : JS.obj) (l k v : JS.str) :
  kept l → JS.trim l = k ++ CHAR_EQUALS :: v → CHAR_EQUALS ∉ k →
  parseGradleProperties_line m l = JS.obj_set m k v.
Proof.
  unfold kept, parseGradleProperties_line. intros [Hne Hs] Ht Hk.
  rewrite Hs. destruct (JS.trim l) as [|c t] eqn:Hl; [done|].
  cbn [JS.truthy negb orb]. unfold JS.indexOf. rewrite Ht.
  rewrite indexOf_from_first by done.
  by rewrite Z.add_0_l, substr_key, substr_value.
Qed.

Lemma kept_dec (l : JS.str) : Decision (kept l).
Proof. unfold kept. apply _. Defined.

Lemma line_entry_kept (l : JS.str) : is_Some (line_entry l) ↔ kept l.
Proof.
  unfold line_entry, line_entry_as_worded, kept.
  destruct (blank (JS.trim l)) eqn:Hb.
  - apply blank_trim in Hb. rewrite Hb. simpl. split; [by intros [? ?]|].
    by intros [? _].
  - simpl. destruct (JS.startsWith (JS.trim l) [CHAR_HASH]).
    + split; [by intros [? ?]|by intros [_ ?]].
    + split; [|by eauto]. intros _. split; [|done].
      intros Ht. by rewrite Ht in Hb.
Qed.

Lemma line_entry_sep (l k v : JS.str) :
  kept l → JS.trim l = k ++ CHAR_EQUALS :: v → CHAR_EQUALS ∉ k →
  line_entry l = Some (k, v).
Proof.
  intros Hk Ht Hc. destruct (proj2 (line_entry_kept l) Hk) as [e He].
  rewrite He. revert He. unfold line_entry, line_entry_as_worded.
  destruct (_ || _); [done|]. intros [= <-].
  by rewrite Ht, before_first_app, after_first_app.
Qed.

Lemma properties_of_snoc (es : list (JS.str * JS.str)) (k v : JS.str) :
  properties_of (es ++ [(k, v)]) = JS.obj_set (properties_of es) k v.
Proof.
  unfold properties_of, JS.obj_set. rewrite filter_app, reverse_app.
  rewrite filter_cons, filter_nil. simpl.
  destruct (decide (k ≠ JS.proto_key)), (decide (k = JS.proto_key));
    done.
Qed.

Lemma first_separator (t : JS.str) :
  CHAR_EQUALS ∈ t → ∃ k v, t = k ++ CHAR_EQUALS :: v ∧ CHAR_EQUALS ∉ k.
Proof. apply list_elem_of_split_l. Qed.

Lemma foldl_lines_bindings (lines : list JS.str) :
  foldl parseGradleProperties_line ∅ lines =
  properties_of (omap line_binding lines).
Proof.
  induction lines as [|l lines IH] using rev_ind; [done|].
  rewrite foldl_snoc, omap_app, IH. simpl. unfold line_binding.
  destruct (kept_dec l) as [Hk|Hk].
  - destruct (proj2 (line_entry_kept l) Hk) as [e He]. rewrite He.
    simpl. case_bool_decide as Hc.
    + destruct (first_separator _ Hc) as (k & v & Ht & Hck).
      rewrite (line_entry_sep l k v) in He by done. injection He as <-.
      rewrite properties_of_snoc.
      by apply parseGradleProperties_line_sep.
    + rewrite properties_of_snoc, parseGradleProperties_line_no_sep by done.
      unfold JS.obj_set. by rewrite decide_False.
  - rewrite parseGradleProperties_line_skip by done.
    destruct (line_entry l) eqn:He; [|by rewrite app_nil_r].
    destruct Hk. apply line_entry_kept. by rewrite He.
Qed.

Lemma first_separator_unique (k k' v v' : JS.str) (c : N) :
  c ∉ k → c ∉ k' → k ++ c :: v = k' ++ c :: v' → k = k' ∧ v = v'.
Proof.
  revert k'. induction k as [|x k IH]; intros [|x' k'] Hk Hk' He;
    simpl in He.
  - by injection He.
  - injection He as <- _. destruct Hk'. by left.
  - injection He as -> _. destruct Hk. by left.
  - injection He as <- He.
    apply not_elem_of_cons in Hk as [_ Hk].
    apply not_elem_of_cons in Hk' as [_ Hk'].
    destruct (IH k' Hk Hk' He) as [-> ->]. done.
Qed.

(** A kept line binds exactly one key, to one value. *)
Lemma assigns_functional (l k k' v v' : JS.str) :
  assigns l k v → assigns l k' v' → k = k' ∧ v = v'.
Proof.
  intros (_ & _ & [[Hk Ht]|(Hn & -> & ->)])
         (_ & _ & [[Hk' Ht']|(Hn' & -> & ->)]); [| | |done].
  - rewrite Ht in Ht'. by apply (first_separator_unique _ _ _ _ CHAR_EQUALS).
  - destruct Hn'. rewrite Ht. apply elem_of_app. right. by left.
  - destruct Hn. rewrite Ht'. apply elem_of_app. right. by left.
Qed.

Lemma parseGradleProperties_line_assigns (m : JS.obj) (l k v : JS.str) :
  assigns l k v → parseGradleProperties_line m l = <[k := v]> m.
Proof.
  intros (Hkept & Hp & [[Hk Ht]|(Hn & -> & ->)]).
  - rewrite (parseGradleProperties_line_sep m l k v) by done.
    unfold JS.obj_set. by rewrite decide_False.
  - by apply parseGradleProperties_line_no_sep.
Qed.

(** A line that binds no value to [k] leaves [k] as it is. *)
Lemma parseGradleProperties_line_frame (m : JS.obj) (l k : JS.str) :
  (∀ v, ¬ assigns l k v) → parseGradleProperties_line m l !! k = m !! k.
Proof.
  intros Hn. destruct (kept_dec l) as [Hkept|Hkept];
    [|by rewrite parseGradleProperties_line_skip].
  destruct (decide (CHAR_EQUALS ∈ JS.trim l)) as [Hc|Hc].
  - destruct (first_separator _ Hc) as (k0 & v0 & Ht & Hk0).
    rewrite (parseGradleProperties_line_sep m l k0 v0) by done.
    unfold JS.obj_set. case_decide as Hp; [done|].
    apply lookup_insert_ne. intros ->.
    apply (Hn v0). split; [done|]. split; [done|]. by left.
  - rewrite parseGradleProperties_line_no_sep by done.
    apply lookup_insert_ne. intros <-.
    apply (Hn (JS.trim l)). split; [done|]. split; [done|]. by right.
Qed.

Lemma last_binding_snoc (P Q : JS.str → Prop) (lines : list JS.str)
    (l : JS.str) :
  (∃ pre l0 post, lines ++ [l] = pre ++ l0 :: post ∧ P l0 ∧ Forall Q post) ↔
  P l ∨
  (Q l ∧ ∃ pre l0 post, lines = pre ++ l0 :: post ∧ P l0 ∧ Forall Q post).
Proof.
  split.
  - intros (pre & l0 & post & He & HP & HQ).
    destruct post as [|x post _] using rev_ind.
    + apply app_inj_tail in He as [_ ->]. by left.
    + rewrite app_comm_cons, app_assoc in He.
      apply app_inj_tail in He as [-> ->].
      rewrite Forall_app, Forall_singleton in HQ. destruct HQ as [HQ Hx].
      right. split; [done|]. by exists pre, l0, post.
  - intros [HP|(HQ & pre & l0 & post & -> & HP & Hpost)].
    + exists lines, l, []. by rewrite Forall_nil.
    + exists pre, l0, (post ++ [l]). rewrite <- app_assoc. simpl.
      split; [done|]. split; [done|].
      rewrite Forall_app, Forall_singleton. by split.
Qed.

Lemma foldl_lines_lookup (lines : list JS.str) (k v : JS.str) :
  foldl parseGradleProperties_line ∅ lines !! k = Some v ↔
  ∃ pre l post, lines = pre ++ l :: post ∧ assigns l k v ∧
    Forall (λ l', ∀ v', ¬ assigns l' k v') post.
Proof.
  induction lines as [|l lines IH] using rev_ind.
  - simpl. rewrite lookup_empty. split; [done|].
    intros (pre & l & post & He & _). by destruct pre.
  - rewrite foldl_snoc,
      (last_binding_snoc (λ l, assigns l k v) (λ l, ∀ v', ¬ assigns l k v')).
    destruct (kept_dec l) as [Hkept|Hkept].
    2:{ rewrite parseGradleProperties_line_skip, IH by done.
        assert (∀ v', ¬ assigns l k v') as Hn by (by intros v' [? _]).
        split; [by right|]. intros [HP|[_ ?]]; [by destruct (Hn v)|done]. }
    assert (∃ k0 v0, kept l ∧
              (((CHAR_EQUALS ∉ k0) ∧ JS.trim l = k0 ++ CHAR_EQUALS :: v0) ∨
               ((CHAR_EQUALS ∉ JS.trim l) ∧ k0 = [] ∧ v0 = JS.trim l)))
      as (k0 & v0 & _ & Hraw).
    { destruct (decide (CHAR_EQUALS ∈ JS.trim l)) as [Hc|Hc].
      - destruct (first_separator _ Hc) as (k0 & v0 & Ht & Hk0).
        exists k0, v0. split; [done|]. by left.
      - exists [], (JS.trim l). split; [done|]. by right. }
    destruct (decide (k0 = JS.proto_key)) as [Hp|Hp].
    { assert (∀ v', ¬ assigns l k v') as Hn.
      { intros v' Ha. assert (k ≠ JS.proto_key) as Hk by apply Ha.
        destruct Ha as (_ & _ & Ha), Hraw as [[? Ht]|(Hn' & -> & ->)];
          [|done].
        destruct Ha as [[? Ht']|(Hn' & -> & ->)].
        - rewrite Ht in Ht'.
          apply (first_separator_unique _ _ _ _ CHAR_EQUALS) in Ht' as [? _];
            congruence.
        - destruct Hn'. rewrite Ht. apply elem_of_app. right. by left. }
      rewrite parseGradleProperties_line_frame, IH by done.
      split; [by right|]. intros [HP|[_ ?]]; [by destruct (Hn v)|done]. }
    assert (assigns l k0 v0) as Ha0 by done.
    rewrite (parseGradleProperties_line_assigns _ l k0 v0) by done.
    destruct (decide (k = k0)) as [->|Hne].
    + rewrite lookup_insert_eq. split.
      * intros [= <-]. by left.
      * intros [HP|[HQ _]]; [|by destruct (HQ v0)].
        by destruct (assigns_functional l k0 k0 v v0) as [_ ->].
    + rewrite lookup_insert_ne, IH by done.
      assert (∀ v', ¬ assigns l k v') as Hn.
      { intros v' Ha. by destruct (assigns_functional l k k0 v' v0). }
      split; [by right|]. intros [HP|[_ ?]]; [by destruct (Hn v)|done].
Qed.

Lemma empty_key_line_dec (l : JS.str) : Decision (empty_key_line l).
Proof. unfold empty_key_line, kept. apply _. Defined.

(** A line that is not an empty-key line leaves the empty key alone. *)
Lemma parseGradleProperties_line_other (m : JS.obj) (l : JS.str) :
  ¬ empty_key_line l →
  parseGradleProperties_line m l !! [] = m !! [].
Proof.
  intros Hn. destruct (kept_dec l) as [Hk|Hk];
    [|by rewrite parseGradleProperties_line_skip].
  destruct (decide (CHAR_EQUALS ∈ JS.trim l)) as [Hc|Hc];
    [|destruct Hn; split; [done|by left]].
  destruct (first_separator _ Hc) as (k & v & Ht & Hck).
  rewrite (parseGradleProperties_line_sep _ l k v) by done.
  unfold JS.obj_set. case_decide; [done|].
  apply lookup_insert_ne. intros ->.
  destruct Hn. split; [done|right]. by rewrite Ht.
Qed.

(** An empty-key line binds the empty key: to the whole trimmed line
    when it has no [=], to what follows a leading [=] otherwise. *)
Lemma parseGradleProperties_line_empty_key (m : JS.obj) (l : JS.str) :
  empty_key_line l →
  parseGradleProperties_line m l !! [] =
  Some (if decide (CHAR_EQUALS ∈ JS.trim l) then tail (JS.trim l)
        else JS.trim l).
Proof.
  intros [Hk He]. case_decide as Hc.
  - destruct He as [He|He]; [done|].
    destruct (JS.trim l) as [|c v] eqn:Ht; [done|].
    injection He as ->.
    rewrite (parseGradleProperties_line_sep _ l [] v); try done;
      [|apply not_elem_of_nil].
    unfold JS.obj_set. case_decide; [done|]. apply lookup_insert_eq.
  - rewrite parseGradleProperties_line_no_sep by done.
    apply lookup_insert_eq.
Qed.

Lemma foldl_lines_other (lines : list JS.str) (m : JS.obj) :
  Forall (λ l, ¬ empty_key_line l) lines →
  foldl parseGradleProperties_line m lines !! [] = m !! [].
Proof.
  revert m. induction lines as [|l lines IH]; intros m Hall; [done|].
  apply Forall_cons in Hall as [Hl Hall]. simpl.
  rewrite IH by done. by apply parseGradleProperties_line_other.
Qed.

Lemma foldl_lines_empty_key (lines : list JS.str) :
  is_Some (foldl parseGradleProperties_line ∅ lines !! []) ↔
  Exists empty_key_line lines.
Proof.
  induction lines as [|l lines IH] using rev_ind.
  - simpl. rewrite lookup_empty, Exists_nil. split; [by intros [? ?]|done].
  - rewrite foldl_snoc, Exists_app, Exists_cons, Exists_nil.
    destruct (empty_key_line_dec l) as [He|He].
    + rewrite parseGradleProperties_line_empty_key by done.
      split; [intros _; right; by left|by eauto].
    + rewrite parseGradleProperties_line_other, IH by done. tauto.
Qed.

(** ** C8: what [parseGradleProperties] returns *)

(** C8 (as amended). For every input string: every line is first trimmed
    as a whole, and lines that are then empty or start with [#] are
    ignored. Each other line binds one key: the trimmed line is cut at its
    first [=] into key and value, neither trimmed any further, and a line
    without [=] binds the empty key to the whole trimmed line. A key is
    bound in the result to the value of the last line that binds it, the
    key [__proto__] never being stored; so the result is the object of the
    bindings of the lines in order. The example of the specification
    yields [{a: "1", b: "two=three"}]. *)
Theorem parseGradleProperties_entries :
  (∀ content k v : JS.str,
     parseGradleProperties content !! k = Some v ↔
     ∃ pre l post,
       JS.split content CHAR_NEWLINE = pre ++ l :: post ∧
       assigns l k v ∧
       Forall (λ l', ∀ v', ¬ assigns l' k v') post) ∧
  (∀ content : JS.str,
     parseGradleProperties content =
     properties_of (omap line_binding (JS.split content CHAR_NEWLINE))) ∧
  parseGradleProperties example_properties =
  {[ JS.lit "a" := JS.lit "1"; JS.lit "b" := JS.lit "two=three" ]}.
Proof.
  split; [|split].
  - intros content k v. unfold parseGradleProperties.
    generalize (JS.split content CHAR_NEWLINE). intros lines.
    apply foldl_lines_lookup.
  - intros content. unfold parseGradleProperties.
    apply foldl_lines_bindings.
  - by vm_compute.
Qed.

(** C8 (as stated) fails: the value of the line [a=1 ] is trimmed. Cutting
    the line at its first [=] without trimming keeps the space; the
    parser drops it. *)
Lemma parseGradleProperties_trims_value :
  parseGradleProperties (JS.lit "a=1 ") = {[ JS.lit "a" := JS.lit "1" ]} ∧
  properties_of
    (omap line_entry_as_worded (JS.split (JS.lit "a=1 ") CHAR_NEWLINE)) =
  {[ JS.lit "a" := JS.lit "1 " ]} ∧
  parseGradleProperties (JS.lit "a=1 ") ≠
  properties_of
    (omap line_entry_as_worded (JS.split (JS.lit "a=1 ") CHAR_NEWLINE)).
Proof.
  assert (parseGradleProperties (JS.lit "a=1 ") =
          {[ JS.lit "a" := JS.lit "1" ]}) as H1 by by vm_compute.
  assert (properties_of
            (omap line_entry_as_worded
               (JS.split (JS.lit "a=1 ") CHAR_NEWLINE)) =
          {[ JS.lit "a" := JS.lit "1 " ]}) as H2 by by vm_compute.
  split; [done|split; [done|]]. rewrite H1, H2.
  intros H. apply (f_equal (λ m : JS.obj, m !! JS.lit "a")) in H.
  by rewrite !lookup_singleton_eq in H.
Qed.

(** ** C10: lines without a separator *)

(** C10 (as amended). A line that after trimming is non-empty, does not
    start with [#] and contains no [=] is not skipped: the loop stores the
    whole trimmed line under the empty key, and the last such line wins
    when no line after it binds the empty key. The result contains the
    empty key exactly when some kept line has no [=] or starts with [=]
    after trimming. *)
Theorem parseGradleProperties_empty_key :
  (∀ (result : JS.obj) (l : JS.str),
     kept l → CHAR_EQUALS ∉ JS.trim l →
     parseGradleProperties_line result l = <[ [] := JS.trim l ]> result) ∧
  (∀ (content : JS.str) (pre : list JS.str) (l : JS.str) (post : list JS.str),
     JS.split content CHAR_NEWLINE = pre ++ l :: post →
     kept l → CHAR_EQUALS ∉ JS.trim l →
     Forall (λ l', ¬ empty_key_line l') post →
     parseGradleProperties content !! [] = Some (JS.trim l)) ∧
  (∀ content : JS.str,
     is_Some (parseGradleProperties content !! []) ↔
     Exists empty_key_line (JS.split content CHAR_NEWLINE)).
Proof.
  split; [|split].
  - apply parseGradleProperties_line_no_sep.
  - intros content pre l post Hs Hk Hc Hpost.
    unfold parseGradleProperties. rewrite Hs, foldl_app. simpl.
    rewrite foldl_lines_other by done.
    rewrite parseGradleProperties_line_no_sep by done.
    apply lookup_insert_eq.
  - intros content. apply foldl_lines_empty_key.
Qed.

Lemma parseGradleProperties_empty_key_witness :
  parseGradleProperties (JS.lit "foo" ++ [CHAR_NEWLINE] ++ JS.lit " bar ") !! []
  = Some (JS.trim (JS.lit " bar ")).
Proof.
  apply (proj1 (proj2 parseGradleProperties_empty_key)
           (JS.lit "foo" ++ [CHAR_NEWLINE] ++ JS.lit " bar ")
           [JS.lit "foo"] (JS.lit " bar ") []).
  - reflexivity.
  - unfold kept. apply (bool_decide_unpack _). by vm_compute.
  - apply (bool_decide_unpack _). by vm_compute.
  - constructor.
Defined.

(** C10 (as stated) fails in its last part: the line [=foo] contains [=]
    and still binds the empty key. *)
Lemma parseGradleProperties_leading_separator :
  parseGradleProperties (JS.lit "=foo") = {[ [] := JS.lit "foo" ]} ∧
  ¬ Exists (λ l, kept l ∧ CHAR_EQUALS ∉ JS.trim l)
      (JS.split (JS.lit "=foo") CHAR_NEWLINE).
Proof.
  split; [by vm_compute|].
  unfold kept. apply (bool_decide_unpack _). by vm_compute.
Qed.

(** ** The header of a bytecode bundle *)

Section Header.

Context {json : Type} (h : host json).

(** The header read from a readable file: its first 12 bytes, and zeros
    where the file has none. *)
Lemma readHermesHeaderAsync_readable (w : world) (file : JS.str)
    (data : list byte) :
  readable h (fs w) file data →
  readHermesHeaderAsync h file w =
  (Ok (take 12 data ++ replicate (12 - length data) x00),
   {| fs := fs w;
      log := log w ++ [FsCall (Open file); FsCall (Read file);
                       FsCall (Close file)] |}).
Proof.
  intros (Hf & Ho & Hr & Hc).
  unfold readHermesHeaderAsync, bind, fs_open, fs_read, fs_close, fs_op, ret.
  simpl. rewrite Ho, Hf. simpl. rewrite Hr, Hf. simpl. rewrite Hc.
  rewrite <- !app_assoc. simpl. do 2 f_equal.
  unfold Buffer.alloc. rewrite drop_replicate, length_take.
  do 2 f_equal. lia.
Qed.

End Header.

(** Hexadecimal digits back to a byte; used to invert [toString('hex')]. *)
Lemma hex_pair_inj (x y : byte) :
  Buffer.toString_hex [x] = Buffer.toString_hex [y] → x = y.
Proof.
  intros H.
  assert (∀ z, Byte.of_N (match Buffer.toString_hex [z] with
                          | [a; b] =>
                              let d c := (if c <? 58 then c - 48 else c - 87)%N in
                              d a * 16 + d b
                          | _ => 0
                          end)%N = Some z) as Hinv
    by (intros z; destruct z; reflexivity).
  pose proof (Hinv x) as Hx. rewrite H, Hinv in Hx. by injection Hx.
Qed.

Lemma toString_hex_cons (x : byte) (b : Buffer.t) :
  Buffer.toString_hex (x :: b) =
  Buffer.toString_hex [x] ++ Buffer.toString_hex b.
Proof. reflexivity. Qed.

Lemma toString_hex_inj (a b : Buffer.t) :
  Buffer.toString_hex a = Buffer.toString_hex b → a = b.
Proof.
  revert b. induction a as [|x a IH]; intros [|y b]; try done.
  rewrite (toString_hex_cons x), (toString_hex_cons y).
  intros H. injection H as H1 H2 H3.
  f_equal; [|by apply IH]. apply hex_pair_inj.
  unfold Buffer.toString_hex. simpl. congruence.
Qed.

Lemma magic_header_hex (b : Buffer.t) :
  Buffer.toString_hex b = HERMES_MAGIC_HEADER ↔ b = magic_bytes.
Proof.
  split; [|by intros ->].
  change HERMES_MAGIC_HEADER with (Buffer.toString_hex magic_bytes).
  apply toString_hex_inj.
Qed.

(** Zero padding cannot complete the magic constant, which has no zero
    byte: the padded header starts with it exactly when the file does. *)
Lemma padded_magic (data : list byte) :
  take 8 (take 12 data ++ replicate (12 - length data) x00) = magic_bytes ↔
  take 8 data = magic_bytes.
Proof.
  unfold magic_bytes.
  do 8 (destruct data as [|? data]; [simpl; split; intros [=]|]).
  reflexivity.
Qed.

Section HeaderClaims.

Context {json : Type} (h : host json).

(** ** C5: detection of a bytecode bundle *)

(** C5. On a readable file [isHermesBytecodeBundleAsync] returns, and its
    answer is true exactly when the first 8 bytes of the file are
    [c6 1f bc 03 c1 03 19 1f]; on a file of fewer than 8 bytes it returns
    false and does not fail. *)
Theorem isHermesBytecodeBundleAsync_magic (w : world) (file : JS.str)
    (data : list byte) :
  readable h (fs w) file data →
  (isHermesBytecodeBundleAsync h file w).1 =
    Ok (bool_decide (take 8 data = magic_bytes)) ∧
  ((length data < 8)%nat →
   (isHermesBytecodeBundleAsync h file w).1 = Ok false).
Proof.
  intros Hr.
  assert ((isHermesBytecodeBundleAsync h file w).1 =
          Ok (bool_decide (take 8 data = magic_bytes))) as Hres.
  { unfold isHermesBytecodeBundleAsync, bind.
    rewrite (readHermesHeaderAsync_readable h w file data Hr). simpl.
    f_equal. apply bool_decide_ext.
    rewrite magic_header_hex. unfold Buffer.slice. rewrite drop_0.
    apply padded_magic. }
  split; [done|]. intros Hlen. rewrite Hres. f_equal.
  apply bool_decide_eq_false. intros Hm.
  apply (f_equal length) in Hm. rewrite length_take in Hm.
  change (length magic_bytes) with 8%nat in Hm. lia.
Qed.

(** ** C6: the version of a bytecode bundle *)

(** C6. On a readable file that starts with the magic constant
    [getHermesBytecodeBundleVersionAsync] returns bytes 8 to 11 read as an
    unsigned little-endian 32-bit integer, which is 5 for
    [c6 1f bc 03 c1 03 19 1f 05 00 00 00]; on a readable file whose first
    8 bytes are not the magic constant it fails with the invalid-bundle
    error. *)
Theorem getHermesBytecodeBundleVersionAsync_version (w : world)
    (file : JS.str) (data : list byte) :
  readable h (fs w) file data →
  (∀ b0 b1 b2 b3 : byte,
     take 12 data = magic_bytes ++ [b0; b1; b2; b3] →
     (getHermesBytecodeBundleVersionAsync h file w).1 =
       Ok (Byte.to_N b0 + 2 ^ 8 * Byte.to_N b1 +
           2 ^ 16 * Byte.to_N b2 + 2 ^ 24 * Byte.to_N b3)%N) ∧
  (take 12 data = magic_bytes ++ [x05; x00; x00; x00] →
   (getHermesBytecodeBundleVersionAsync h file w).1 = Ok 5%N) ∧
  (take 8 data ≠ magic_bytes →
   (getHermesBytecodeBundleVersionAsync h file w).1 = Err InvalidHermesBundle).
Proof.
  intros Hr.
  assert (∀ b0 b1 b2 b3 : byte,
     take 12 data = magic_bytes ++ [b0; b1; b2; b3] →
     (getHermesBytecodeBundleVersionAsync h file w).1 =
       Ok (Byte.to_N b0 + 2 ^ 8 * Byte.to_N b1 +
           2 ^ 16 * Byte.to_N b2 + 2 ^ 24 * Byte.to_N b3)%N) as Hv.
  { intros b0 b1 b2 b3 Hd.
    unfold getHermesBytecodeBundleVersionAsync, bind.
    rewrite (readHermesHeaderAsync_readable h w file data Hr).
    assert (12 ≤ length data)%nat as Hlen.
    { apply (f_equal length) in Hd. rewrite length_take in Hd.
      change (length (magic_bytes ++ [b0; b1; b2; b3])) with 12%nat in Hd.
      lia. }
    replace (12 - length data)%nat with 0%nat by lia.
    rewrite Hd. simpl. f_equal. lia. }
  split; [done|split].
  - intros Hd. by rewrite (Hv _ _ _ _ Hd).
  - intros Hm. unfold getHermesBytecodeBundleVersionAsync, bind.
    rewrite (readHermesHeaderAsync_readable h w file data Hr).
    rewrite bool_decide_eq_true_2; [done|].
    rewrite magic_header_hex. unfold Buffer.slice. rewrite drop_0.
    by rewrite padded_magic.
Qed.

(** ** C7: short files *)

(** C7 (as amended). The header-reading primitive does not fail on a
    readable file of fewer than 12 bytes: it returns a 12-byte header, the
    bytes of the file followed by zeros. *)
Theorem readHermesHeaderAsync_short_file (w : world) (file : JS.str)
    (data : list byte) :
  readable h (fs w) file data → (length data < 12)%nat →
  (readHermesHeaderAsync h file w).1 =
    Ok (data ++ replicate (12 - length data) x00) ∧
  length (data ++ replicate (12 - length data) x00) = 12%nat.
Proof.
  intros Hr Hlen. rewrite (readHermesHeaderAsync_readable h w file data Hr).
  simpl. rewrite take_ge by lia. split; [done|].
  rewrite length_app, length_replicate. lia.
Qed.

End HeaderClaims.

(** A file of three bytes, and one holding a version-5 header. *)
Lemma isHermesBytecodeBundleAsync_magic_witness :
  (isHermesBytecodeBundleAsync (example_host stub_compiler no_fault)
     (JS.lit "/app/index.hbc")
     (start {| files := {[ JS.lit "/app/index.hbc" := magic_bytes ]};
               dirs := ∅ |})).1 = Ok true.
Proof.
  refine (proj1 (isHermesBytecodeBundleAsync_magic
                   (example_host stub_compiler no_fault)
                   (start {| files := {[ JS.lit "/app/index.hbc" := magic_bytes ]};
                             dirs := ∅ |})
                   (JS.lit "/app/index.hbc") magic_bytes _)).
  by vm_compute.
Defined.

Lemma getHermesBytecodeBundleVersionAsync_version_witness :
  (getHermesBytecodeBundleVersionAsync (example_host stub_compiler no_fault)
     (JS.lit "/app/index.hbc")
     (start {| files := {[ JS.lit "/app/index.hbc" :=
                             magic_bytes ++ [x05; x00; x00; x00] ]};
               dirs := ∅ |})).1 = Ok 5%N.
Proof.
  refine (proj1 (proj2 (getHermesBytecodeBundleVersionAsync_version
                   (example_host stub_compiler no_fault)
                   (start {| files := {[ JS.lit "/app/index.hbc" :=
                                           magic_bytes ++ [x05; x00; x00; x00] ]};
                             dirs := ∅ |})
                   (JS.lit "/app/index.hbc")
                   (magic_bytes ++ [x05; x00; x00; x00]) _)) _).
  - by vm_compute.
  - reflexivity.
Defined.

Lemma readHermesHeaderAsync_short_file_witness :
  (readHermesHeaderAsync (example_host stub_compiler no_fault)
     (JS.lit "/app/short.hbc")
     (start {| files := {[ JS.lit "/app/short.hbc" := [xc6; x1f; xbc] ]};
               dirs := ∅ |})).1 =
  Ok ([xc6; x1f; xbc] ++ replicate (12 - 3) x00).
Proof.
  refine (proj1 (readHermesHeaderAsync_short_file
                   (example_host stub_compiler no_fault)
                   (start {| files := {[ JS.lit "/app/short.hbc" := [xc6; x1f; xbc] ]};
                             dirs := ∅ |})
                   (JS.lit "/app/short.hbc") [xc6; x1f; xbc] _ _)).
  - by vm_compute.
  - simpl. lia.
Defined.

(** C7 (as stated) fails: on a readable file of three bytes the primitive
    returns a header and raises no error. *)
Lemma readHermesHeaderAsync_short_file_returns :
  (readHermesHeaderAsync (example_host stub_compiler no_fault)
     (JS.lit "/app/short.hbc")
     (start {| files := {[ JS.lit "/app/short.hbc" := [xc6; x1f; xbc] ]};
               dirs := ∅ |})).1 =
  Ok [xc6; x1f; xbc; x00; x00; x00; x00; x00; x00; x00; x00; x00] ∧
  (length [xc6; x1f; xbc] < 12)%nat.
Proof. split; [by vm_compute|simpl; lia]. Qed.

(** ** The build *)

Section Build.

Context {json : Type} (h : host json).

Lemma fs_op_log {A} (c : fs_call)
    (run : filesystem → result A * filesystem) (w : world) :
  log (fs_op h c run w).2 = log w ++ [FsCall c].
Proof.
  unfold fs_op. destruct (fs_fault h c (fs w)); [done|].
  by destruct (run (fs w)).
Qed.

Lemma fs_ensureDir_ok (dir : JS.str) (w : world) :
  fs_fault h (EnsureDir dir) (fs w) = None →
  fs_ensureDir h dir w =
  (Ok (), {| fs := {| files := files (fs w); dirs := {[dir]} ∪ dirs (fs w) |};
             log := log w ++ [FsCall (EnsureDir dir)] |}).
Proof. intros Hf. unfold fs_ensureDir, fs_op. by rewrite Hf. Qed.

Lemma fs_ensureDir_fault (dir code : JS.str) (w : world) :
  fs_fault h (EnsureDir dir) (fs w) = Some code →
  fs_ensureDir h dir w =
  (Err (FsError (EnsureDir dir) code),
   {| fs := fs w; log := log w ++ [FsCall (EnsureDir dir)] |}).
Proof. intros Hf. unfold fs_ensureDir, fs_op. by rewrite Hf. Qed.

(** After a removal that is not refused nothing is left at the path or
    below it. *)
Lemma fs_remove_gone (path p : JS.str) (w : world) :
  fs_fault h (Remove path) (fs w) = None →
  inside path p = true →
  ¬ exists_in (fs (fs_remove h path w).2) p.
Proof.
  intros Hf Hin. unfold fs_remove, fs_op. rewrite Hf. simpl.
  intros [[data Hd]|Hd]; simpl in Hd.
  - apply map_lookup_filter_Some in Hd as [_ Hp]. simpl in Hp. congruence.
  - apply elem_of_filter in Hd as [Hp _]. congruence.
Qed.

(** The outcome of [try]/[finally] in terms of the two parts. *)
Lemma try_finally_result {A} (body : M A) (finalizer : M unit) (w : world) :
  (try_finally body finalizer w).1 =
  match (finalizer (body w).2).1 with
  | Ok _ => (body w).1
  | Err e => Err e
  end ∧
  (try_finally body finalizer w).2 = (finalizer (body w).2).2.
Proof.
  unfold try_finally. destruct (body w) as [r w1]. simpl.
  by destruct (finalizer w1) as [[[]|e] w2].
Qed.

(** ** C1: the workspace is removed on every exit path *)

(** C1. Once the workspace directory has been created, every run of
    [buildHermesBundleAsync], whether it returns a bundle or fails in the
    staging, in the compiler (spawn failure or non-zero exit), in the read
    of the bytecode or in the composition of the source maps, ends with
    the recursive removal of the workspace directory as its last action;
    when that removal is not refused, neither the directory nor anything
    below it exists when the call returns. *)
Theorem buildHermesBundleAsync_removes_workspace
    (projectRoot code map : JS.str) (optimize : bool) (w : world) :
  fs_fault h (EnsureDir (tempDir h)) (fs w) = None →
  last (log (buildHermesBundleAsync h projectRoot code map optimize w).2) =
    Some (FsCall (Remove (tempDir h))) ∧
  ((∀ s, fs_fault h (Remove (tempDir h)) s = None) →
   ∀ p, inside (tempDir h) p = true →
        ¬ exists_in
            (fs (buildHermesBundleAsync h projectRoot code map optimize w).2)
            p).
Proof.
  intros He. unfold buildHermesBundleAsync, bind.
  rewrite (fs_ensureDir_ok _ _ He).
  match goal with
  | |- context [try_finally ?b ?f ?w1] =>
      destruct (try_finally_result b f w1) as [_ ->];
      generalize (b w1).2
  end.
  intros w2. split.
  - unfold fs_remove. rewrite fs_op_log. apply last_snoc.
  - intros Hr p Hp. by apply fs_remove_gone.
Qed.

(** ** C2: which error the caller sees *)

(** C2 (as amended). When the body of the build fails and the removal of
    the workspace fails too, the caller of [buildHermesBundleAsync]
    receives the error of the removal, which replaces the error of the
    build; the error of the build is what the caller receives when the
    removal succeeds. *)
Theorem buildHermesBundleAsync_finally_error
    (projectRoot code map : JS.str) (optimize : bool) (w w1 w2 : world)
    (e : error) :
  fs_ensureDir h (tempDir h) w = (Ok (), w1) →
  buildHermesBundle_body h projectRoot code map optimize w1 = (Err e, w2) →
  (∀ c, fs_fault h (Remove (tempDir h)) (fs w2) = Some c →
        (buildHermesBundleAsync h projectRoot code map optimize w).1 =
          Err (FsError (Remove (tempDir h)) c)) ∧
  (fs_fault h (Remove (tempDir h)) (fs w2) = None →
   (buildHermesBundleAsync h projectRoot code map optimize w).1 = Err e).
Proof.
  intros He Hb. unfold buildHermesBundleAsync, bind. rewrite He.
  unfold try_finally. rewrite Hb. unfold fs_remove, fs_op.
  split; [intros c Hc|intros Hc]; by rewrite Hc.
Qed.

End Build.

(** ** The compiler invocation *)

Section Invocation.

Context {json : Type} (h : host json).

Lemma quiet_ret {A} (a : A) : quiet (ret a).
Proof. intros w. exists []. by rewrite app_nil_r. Qed.

Lemma quiet_throw {A} (e : error) : quiet (throw (A := A) e).
Proof. intros w. exists []. by rewrite app_nil_r. Qed.

Lemma quiet_lift {A} (r : result A) : quiet (lift r).
Proof. intros w. exists []. by rewrite app_nil_r. Qed.

Lemma quiet_fs_op {A} (c : fs_call)
    (run : filesystem → result A * filesystem) : quiet (fs_op h c run).
Proof. intros w. exists [FsCall c]. by rewrite fs_op_log. Qed.

Lemma quiet_bind {A B} (m : M A) (k : A → M B) :
  quiet m → (∀ a, quiet (k a)) → quiet (bind m k).
Proof.
  intros Hm Hk w. unfold bind.
  destruct (Hm w) as (evs & Hl & Hs). destruct (m w) as [[a|e] w1].
  - destruct (Hk a w1) as (evs' & Hl' & Hs'). exists (evs ++ evs').
    simpl in Hl. rewrite Hl', Hl, app_assoc, filter_app, Hs, Hs'. done.
  - by exists evs.
Qed.

Lemma quiet_Promise_all {A B} (p : M A) (q : M B) :
  quiet p → quiet q → quiet (Promise_all h p q).
Proof.
  intros Hp Hq w. unfold Promise_all.
  destruct (Hp w) as (evs & Hl & Hs). destruct (p w) as [ra w1].
  destruct (Hq w1) as (evs' & Hl' & Hs'). destruct (q w1) as [rb w2].
  exists (evs ++ evs'). simpl in *.
  by rewrite Hl', Hl, app_assoc, filter_app, Hs, Hs'.
Qed.

Lemma quiet_createHermesSourcemapAsync (projectRoot sourcemap file : JS.str) :
  quiet (createHermesSourcemapAsync h projectRoot sourcemap file).
Proof.
  unfold createHermesSourcemapAsync.
  apply quiet_bind; [apply quiet_lift|intros compose].
  apply quiet_bind; [apply quiet_lift|intros bundlerMap].
  apply quiet_bind; [apply quiet_fs_op|intros hermesMap].
  destruct (compose _); [apply quiet_ret|apply quiet_throw].
Qed.

Lemma spawnAsync_log (command : JS.str) (args : list JS.str) (w : world) :
  log (spawnAsync h command args w).2 = log w ++ [Spawn command args].
Proof.
  unfold spawnAsync. destruct (spawn h command args (fs w)) as [r s].
  by destruct r as [[| |]|].
Qed.

Lemma fs_writeFile_log (file data : JS.str) (w : world) :
  log (fs_writeFile h file data w).2 = log w ++ [FsCall (WriteFile file data)].
Proof. apply fs_op_log. Qed.

Lemma fs_writeFile_err (file data : JS.str) (w w' : world) (e : error) :
  fs_writeFile h file data w = (Err e, w') →
  fs_fault h (WriteFile file data) (fs w) ≠ None.
Proof.
  unfold fs_writeFile, fs_op.
  by destruct (fs_fault h (WriteFile file data) (fs w)).
Qed.

(** What the [try] block adds to the log: at most one process, started
    with the expected arguments, and exactly one when the staging is not
    refused and the compiler is found. *)
Lemma buildHermesBundle_body_spawns
    (projectRoot code map : JS.str) (optimize : bool) (w : world) :
  ∃ evs,
    log (buildHermesBundle_body h projectRoot code map optimize w).2 =
      log w ++ evs ∧
    (filter is_spawn evs = [] ∨
     ∃ command, getHermesCommand h projectRoot = Ok command ∧
       filter is_spawn evs = [Spawn command (expected_args h optimize)]) ∧
    (staging_faultless h →
     ∀ command, getHermesCommand h projectRoot = Ok command →
       filter is_spawn evs = [Spawn command (expected_args h optimize)]).
Proof.
  unfold buildHermesBundle_body, bind.
  pose proof (fs_writeFile_log (path_join (tempDir h) (JS.lit "index.bundle"))
                code w) as L1.
  destruct (fs_writeFile h _ code w) as [[[]|e1] w1] eqn:E1; simpl in L1.
  2:{ eexists; split; [exact L1|]. split; [by left|].
      intros Hs. apply fs_writeFile_err in E1. destruct E1.
      apply (Hs (WriteFile _ _)). }
  pose proof (fs_writeFile_log
                (path_join (tempDir h) (JS.lit "index.bundle.map")) map w1)
    as L2.
  destruct (fs_writeFile h _ map w1) as [[[]|e2] w2] eqn:E2; simpl in L2.
  2:{ exists [FsCall (WriteFile (path_join (tempDir h) (JS.lit "index.bundle")) code);
              FsCall (WriteFile (path_join (tempDir h) (JS.lit "index.bundle.map")) map)].
      split; [simpl; by rewrite L2, L1, <- app_assoc|]. split; [by left|].
      intros Hs. apply fs_writeFile_err in E2. destruct E2.
      apply (Hs (WriteFile _ _)). }
  unfold lift at 1. destruct (getHermesCommand h projectRoot) as [command|e3].
  2:{ exists [FsCall (WriteFile (path_join (tempDir h) (JS.lit "index.bundle")) code);
              FsCall (WriteFile (path_join (tempDir h) (JS.lit "index.bundle.map")) map)].
      split; [simpl; by rewrite L2, L1, <- app_assoc|]. split; [by left|done]. }
  match goal with
  | |- context [spawnAsync h command ?a w2] =>
      pose proof (spawnAsync_log command a w2) as L3;
      assert (a = expected_args h optimize) as Ha
        by (unfold expected_args; by destruct optimize);
      rewrite Ha in *; clear Ha;
      destruct (spawnAsync h command (expected_args h optimize) w2)
        as [[[]|e4] w3] eqn:E3; simpl in L3
  end.
  2:{ eexists. split; [simpl; by rewrite L3, L2, L1, <- !app_assoc|].
      split; [right; by exists command|]. by intros _ ? [= <-]. }
  destruct (quiet_Promise_all
              (fs_readFile h (path_join (tempDir h) (JS.lit "index.hbc")))
              (createHermesSourcemapAsync h projectRoot map
                 (path_join (tempDir h) (JS.lit "index.hbc") ++ JS.lit ".map"))
              (quiet_fs_op _ _)
              (quiet_createHermesSourcemapAsync _ _ _) w3)
    as (evs & L4 & S4).
  destruct (Promise_all h _ _ w3) as [[r|e5] w4]; simpl in L4 |- *;
    (eexists; split; [by rewrite L4, L3, L2, L1, <- !app_assoc|]);
    rewrite !filter_app, S4; simpl;
    (split; [right; by exists command|]; by intros _ ? [= <-]).
Qed.

End Invocation.

Lemma path_join_length (dir name : JS.str) :
  length (path_join dir name) = (length dir + 1 + length name)%nat.
Proof. unfold path_join. rewrite !length_app. simpl. lia. Qed.

(** A staged file is never the optimisation flag. *)
Lemma staged_not_flag (dir name : JS.str) :
  (2 ≤ length name)%nat → path_join dir name ≠ JS.lit "-O".
Proof.
  intros Hn He. apply (f_equal length) in He.
  rewrite path_join_length in He. simpl in He. lia.
Qed.

Section InvocationClaim.

Context {json : Type} (h : host json).

(** ** C3: the arguments of the compiler *)

(** C3. A build starts at most one process, the compiler, and starts it
    with exactly the arguments [-emit-binary], [-out], the path of the
    bytecode file, the path of the staged bundle, [-output-source-map],
    followed by [-O] when [optimize] is true and by nothing otherwise; it
    does start it whenever the staging is not refused and the compiler is
    found. The flag [-O] occurs once among the arguments when [optimize]
    is true, as their last element, and not at all when it is false. *)
Theorem buildHermesBundleAsync_compiler_arguments
    (projectRoot code map : JS.str) (optimize : bool) (s : filesystem) :
  (filter is_spawn
     (log (buildHermesBundleAsync h projectRoot code map optimize (start s)).2)
   = [] ∨
   ∃ command, getHermesCommand h projectRoot = Ok command ∧
     filter is_spawn
       (log (buildHermesBundleAsync h projectRoot code map optimize
               (start s)).2)
     = [Spawn command (expected_args h optimize)]) ∧
  (staging_faultless h →
   ∀ command, getHermesCommand h projectRoot = Ok command →
     filter is_spawn
       (log (buildHermesBundleAsync h projectRoot code map optimize
               (start s)).2)
     = [Spawn command (expected_args h optimize)]) ∧
  length (filter (λ a, a = JS.lit "-O") (expected_args h optimize)) =
    (if optimize then 1 else 0)%nat ∧
  (optimize = true → last (expected_args h optimize) = Some (JS.lit "-O")).
Proof.
  assert (∀ l : list event,
            log (buildHermesBundleAsync h projectRoot code map optimize
                   (start s)).2 = l →
            (filter is_spawn l = [] ∨
             ∃ command, getHermesCommand h projectRoot = Ok command ∧
               filter is_spawn l = [Spawn command (expected_args h optimize)]) ∧
            (staging_faultless h →
             ∀ command, getHermesCommand h projectRoot = Ok command →
               filter is_spawn l = [Spawn command (expected_args h optimize)]))
    as Hlog.
  { intros l <-. unfold buildHermesBundleAsync, bind.
    destruct (fs_fault h (EnsureDir (tempDir h)) s) as [c|] eqn:Hf.
    - rewrite (fs_ensureDir_fault h _ c) by done. simpl.
      split; [by left|]. intros Hs. specialize (Hs (EnsureDir (tempDir h)) s).
      simpl in Hs. congruence.
    - rewrite (fs_ensureDir_ok h) by done.
      match goal with
      | |- context [try_finally ?b ?f ?w1] =>
          destruct (try_finally_result b f w1) as [_ ->];
          destruct (buildHermesBundle_body_spawns h projectRoot code map
                      optimize w1) as (evs & Hl & Hone & Hall)
      end.
      unfold fs_remove. rewrite fs_op_log, Hl. simpl.
      rewrite filter_cons. simpl. rewrite filter_app. simpl.
      rewrite app_nil_r.
      split; [exact Hone|exact Hall]. }
  destruct (Hlog _ eq_refl) as [H1 H2].
  split; [exact H1|]. split; [exact H2|]. split.
  - unfold expected_args. rewrite filter_app, length_app.
    rewrite !filter_cons, filter_nil.
    rewrite (decide_False (P := path_join _ (JS.lit "index.hbc") = _))
      by (apply staged_not_flag; simpl; lia).
    rewrite (decide_False (P := path_join _ (JS.lit "index.bundle") = _))
      by (apply staged_not_flag; simpl; lia).
    by destruct optimize.
  - intros ->. unfold expected_args. apply last_snoc.
Qed.

End InvocationClaim.

Lemma buildHermesBundleAsync_compiler_arguments_witness :
  filter is_spawn
    (log (buildHermesBundleAsync (example_host stub_compiler no_fault)
            (JS.lit "/app") (JS.lit "code") (JS.lit "{bundler map}") true
            (start empty_fs)).2)
  = [Spawn (JS.lit "/app/node_modules/hermes-engine/linux64-bin/hermesc")
       [JS.lit "-emit-binary"; JS.lit "-out";
        JS.lit "/tmp/expo-bundler-4242/index.hbc";
        JS.lit "/tmp/expo-bundler-4242/index.bundle";
        JS.lit "-output-source-map"; JS.lit "-O"]].
Proof.
  refine (proj1 (proj2 (buildHermesBundleAsync_compiler_arguments
                          (example_host stub_compiler no_fault)
                          (JS.lit "/app") (JS.lit "code")
                          (JS.lit "{bundler map}") true empty_fs))
            _ (JS.lit "/app/node_modules/hermes-engine/linux64-bin/hermesc") _).
  - by intros [] ?.
  - reflexivity.
Defined.

Lemma buildHermesBundleAsync_removes_workspace_witness :
  ¬ exists_in
      (fs (buildHermesBundleAsync (example_host stub_compiler no_fault)
             (JS.lit "/app") (JS.lit "code") (JS.lit "{bundler map}") true
             (start empty_fs)).2)
      (JS.lit "/tmp/expo-bundler-4242/index.hbc") ∧
  ¬ exists_in
      (fs (buildHermesBundleAsync (example_host failing_compiler no_fault)
             (JS.lit "/app") (JS.lit "code") (JS.lit "{bundler map}") true
             (start empty_fs)).2)
      (JS.lit "/tmp/expo-bundler-4242/index.bundle") ∧
  ¬ exists_in
      (fs (buildHermesBundleAsync (example_host stub_compiler no_fault)
             (JS.lit "/app") (JS.lit "code") (JS.lit "not a map") true
             (start empty_fs)).2)
      (JS.lit "/tmp/expo-bundler-4242").
Proof.
  split; [|split].
  - refine (proj2 (buildHermesBundleAsync_removes_workspace
                     (example_host stub_compiler no_fault)
                     (JS.lit "/app") (JS.lit "code") (JS.lit "{bundler map}")
                     true (start empty_fs) _) _ _ _); reflexivity.
  - refine (proj2 (buildHermesBundleAsync_removes_workspace
                     (example_host failing_compiler no_fault)
                     (JS.lit "/app") (JS.lit "code") (JS.lit "{bundler map}")
                     true (start empty_fs) _) _ _ _); reflexivity.
  - refine (proj2 (buildHermesBundleAsync_removes_workspace
                     (example_host stub_compiler no_fault)
                     (JS.lit "/app") (JS.lit "code") (JS.lit "not a map")
                     true (start empty_fs) _) _ _ _); reflexivity.
Defined.

Lemma buildHermesBundleAsync_finally_error_witness :
  (buildHermesBundleAsync (example_host failing_compiler no_fault)
     (JS.lit "/app") (JS.lit "code") (JS.lit "{bundler map}") false
     (start empty_fs)).1 = Err (SpawnError (Exited 1)).
Proof.
  refine (proj2 (buildHermesBundleAsync_finally_error
                   (example_host failing_compiler no_fault)
                   (JS.lit "/app") (JS.lit "code") (JS.lit "{bundler map}")
                   false (start empty_fs)
                   (fs_ensureDir (example_host failing_compiler no_fault)
                      (JS.lit "/tmp/expo-bundler-4242") (start empty_fs)).2
                   (buildHermesBundle_body
                      (example_host failing_compiler no_fault)
                      (JS.lit "/app") (JS.lit "code") (JS.lit "{bundler map}")
                      false
                      (fs_ensureDir (example_host failing_compiler no_fault)
                         (JS.lit "/tmp/expo-bundler-4242")
                         (start empty_fs)).2).2
                   (SpawnError (Exited 1)) _ _) _).
  - reflexivity.
  - etransitivity; [apply surjective_pairing|]. by f_equal.
  - reflexivity.
Defined.

(** C2 (as stated) fails: the compiler exits with status 1, so the body of
    the build fails with the spawn error; the removal of the workspace is
    refused with [EBUSY]; the caller receives the removal error. *)
Lemma buildHermesBundleAsync_removal_error_masks :
  (buildHermesBundle_body (example_host failing_compiler remove_fault)
     (JS.lit "/app") (JS.lit "code") (JS.lit "{bundler map}") false
     (fs_ensureDir (example_host failing_compiler remove_fault)
        (JS.lit "/tmp/expo-bundler-4242") (start empty_fs)).2).1 =
    Err (SpawnError (Exited 1)) ∧
  (buildHermesBundleAsync (example_host failing_compiler remove_fault)
     (JS.lit "/app") (JS.lit "code") (JS.lit "{bundler map}") false
     (start empty_fs)).1 =
    Err (FsError (Remove (JS.lit "/tmp/expo-bundler-4242")) (JS.lit "EBUSY")).
Proof. split; by vm_compute. Qed.

(** ** C4: the order of the composition *)

Lemma composeSourceMaps_pair (b c : SourceMap.t) :
  SourceMap.composeSourceMaps [b; c] = Some (SourceMap.through b <$> c).
Proof. reflexivity. Qed.

(** C4. [createHermesSourcemapAsync] parses the bundler's map from its
    argument and the compiler's map from the file, and calls the composer
    it loaded from the project on the list of the bundler's map followed
    by the compiler's map; what it returns is the serialisation of the
    composer's result. With the composition the specification describes,
    every segment of the compiler's map whose source position the
    bundler's map knows is sent to what the bundler's map gives there: in
    the example, bytecode offset 10, which the compiler maps to bundle
    line 3, which the bundler maps to line 1 of [a.js], is mapped to line
    1 of [a.js]. *)
Theorem createHermesSourcemapAsync_order :
  (∀ (json : Type) (h : host json)
     (projectRoot sourcemap hermesMapFile resolved : JS.str) (w : world)
     (bundlerMap compilerMap : json) (data : list byte),
     resolveFrom_silent h projectRoot
       (JS.lit "metro-source-map/src/composeSourceMaps") = Some resolved →
     JS.truthy resolved = true →
     JSON_parse h sourcemap = Some bundlerMap →
     fs_fault h (ReadJSON hermesMapFile) (fs w) = None →
     files (fs w) !! hermesMapFile = Some data →
     readJSON_parse h data = Some compilerMap →
     (createHermesSourcemapAsync h projectRoot sourcemap hermesMapFile w).1 =
       match require_composeSourceMaps h resolved [bundlerMap; compilerMap] with
       | Some composed => Ok (JSON_stringify h composed)
       | None => Err ComposeError
       end) ∧
  (∀ (b c : SourceMap.t) (s o : SourceMap.segment),
     s ∈ c →
     SourceMap.originalPositionFor b (SourceMap.original s) = Some o →
     ∃ composed, SourceMap.composeSourceMaps [b; c] = Some composed ∧
       {| SourceMap.generated := SourceMap.generated s;
          SourceMap.source := SourceMap.source o;
          SourceMap.original := SourceMap.original o |} ∈ composed) ∧
  SourceMap.composeSourceMaps [bundler_map; compiler_map] = Some composed_map.
Proof.
  split; [|split].
  - intros json h projectRoot sourcemap hermesMapFile resolved w
      bundlerMap compilerMap data Hres Htruthy Hparse Hfault Hfile Hjson.
    unfold createHermesSourcemapAsync, importMetroSourceMapFromProject,
      bind, lift, fs_readJSON, fs_op.
    rewrite Hres, Htruthy, Hparse, Hfault, Hfile, Hjson. simpl.
    by destruct (require_composeSourceMaps h resolved _).
  - intros b c s o Hs Ho. rewrite composeSourceMaps_pair.
    eexists. split; [done|]. apply list_elem_of_fmap.
    exists s. split; [|done]. unfold SourceMap.through. by rewrite Ho.
  - reflexivity.
Qed.

Lemma createHermesSourcemapAsync_order_witness :
  (createHermesSourcemapAsync (example_host stub_compiler no_fault)
     (JS.lit "/app") (JS.lit "{bundler map}") (JS.lit "/tmp/index.hbc.map")
     (start {| files := {[ JS.lit "/tmp/index.hbc.map" :=
                             ascii_bytes (JS.lit "{compiler map}") ]};
               dirs := ∅ |})).1 = Ok (JS.lit "{composed map}").
Proof.
  refine (proj1 createHermesSourcemapAsync_order SourceMap.t
            (example_host stub_compiler no_fault)
            (JS.lit "/app") (JS.lit "{bundler map}")
            (JS.lit "/tmp/index.hbc.map")
            (JS.lit "/app/node_modules/metro-source-map/src/composeSourceMaps")
            (start {| files := {[ JS.lit "/tmp/index.hbc.map" :=
                                    ascii_bytes (JS.lit "{compiler map}") ]};
                      dirs := ∅ |})
            bundler_map compiler_map (ascii_bytes (JS.lit "{compiler map}"))
            _ _ _ _ _ _); reflexivity.
Defined.

(** ** C9: the identity of the workspace *)

Lemma lit_inj (s1 s2 : string) : JS.lit s1 = JS.lit s2 → s1 = s2.
Proof.
  unfold JS.lit. intros H.
  assert (Inj (=) (=) N_of_ascii) as Hinj.
  { intros a b Hab. apply (f_equal ascii_of_N) in Hab.
    by rewrite !ascii_N_embedding in Hab. }
  apply (inj (fmap N_of_ascii)) in H.
  apply (f_equal string_of_list_ascii) in H.
  by rewrite !string_of_list_ascii_of_string in H.
Qed.

Lemma tempDir_pid {json} (h1 h2 : host json) :
  os_tmpdir h1 = os_tmpdir h2 →
  tempDir h1 = tempDir h2 → process_pid h1 = process_pid h2.
Proof.
  unfold tempDir, path_join. intros -> H.
  do 3 apply app_inv_head in H.
  apply lit_inj in H. by apply (inj pretty) in H.
Qed.

Lemma buildHermesBundleAsync_first_call {json} (h : host json)
    (projectRoot code map : JS.str) (optimize : bool) (s : filesystem) :
  head (log (buildHermesBundleAsync h projectRoot code map optimize
               (start s)).2) = Some (FsCall (EnsureDir (tempDir h))).
Proof.
  unfold buildHermesBundleAsync, bind.
  destruct (fs_fault h (EnsureDir (tempDir h)) s) as [c|] eqn:Hf.
  - by rewrite (fs_ensureDir_fault h _ c).
  - rewrite (fs_ensureDir_ok h) by done.
    match goal with
    | |- context [try_finally ?b ?f ?w1] =>
        destruct (try_finally_result b f w1) as [_ ->];
        destruct (buildHermesBundle_body_spawns h projectRoot code map
                    optimize w1) as (evs & Hl & _)
    end.
    unfold fs_remove. by rewrite fs_op_log, Hl.
Qed.

(** C9 (as amended). The workspace of a build is named after the process
    that runs it: the directory every build of a process creates first is
    [expo-bundler-<pid>] in the temporary directory of the system,
    whatever the arguments of the build, and under one temporary
    directory two processes have the same workspace exactly when they have
    the same process identifier. *)
Theorem tempDir_per_process {json : Type} (h1 h2 : host json) :
  os_tmpdir h1 = os_tmpdir h2 →
  (tempDir h1 = tempDir h2 ↔ process_pid h1 = process_pid h2) ∧
  (∀ (projectRoot code map : JS.str) (optimize : bool) (s : filesystem),
     head (log (buildHermesBundleAsync h1 projectRoot code map optimize
                  (start s)).2) = Some (FsCall (EnsureDir (tempDir h1)))) ∧
  tempDir h1 =
    os_tmpdir h1 ++ JS.lit "/expo-bundler-" ++ JS.lit (pretty (process_pid h1)).
Proof.
  intros Ht. split; [|split].
  - split; [by apply tempDir_pid|].
    intros Hp. unfold tempDir. by rewrite Ht, Hp.
  - apply buildHermesBundleAsync_first_call.
  - reflexivity.
Qed.

Lemma tempDir_per_process_witness :
  tempDir (example_host stub_compiler no_fault) =
  tempDir (example_host failing_compiler remove_fault).
Proof.
  refine (proj2 (proj1 (tempDir_per_process
                          (example_host stub_compiler no_fault)
                          (example_host failing_compiler remove_fault) _)) _);
    reflexivity.
Defined.

(** C9 (as stated) fails: two builds of one process, with different
    project roots, bundles and flags, acquire the same workspace. *)
Lemma buildHermesBundleAsync_shared_workspace :
  head (log (buildHermesBundleAsync (example_host stub_compiler no_fault)
               (JS.lit "/app") (JS.lit "first bundle")
               (JS.lit "{bundler map}") false (start empty_fs)).2) =
    Some (FsCall (EnsureDir (JS.lit "/tmp/expo-bundler-4242"))) ∧
  head (log (buildHermesBundleAsync (example_host stub_compiler no_fault)
               (JS.lit "/other") (JS.lit "second bundle")
               (JS.lit "{bundler map}") true (start empty_fs)).2) =
    Some (FsCall (EnsureDir (JS.lit "/tmp/expo-bundler-4242"))).
Proof. split; by vm_compute. Qed.

(** * Further properties of the module *)

(** ** [parseGradleProperties]: lookups *)

(** X1. Looking up any key in the result of [parseGradleProperties]: the
    key is bound to [v] exactly when some line binds it to [v] and no line
    after that one binds it again. *)
Theorem parseGradleProperties_lookup (content k v : JS.str) :
  parseGradleProperties content !! k = Some v ↔
  ∃ pre l post,
    JS.split content CHAR_NEWLINE = pre ++ l :: post ∧
    assigns l k v ∧
    Forall (λ l', ∀ v', ¬ assigns l' k v') post.
Proof.
  unfold parseGradleProperties.
  generalize (JS.split content CHAR_NEWLINE). intros lines.
  apply foldl_lines_lookup.
Qed.

(** ** [parseGradleProperties]: composition *)

Lemma split_nonempty (s : JS.str) (sep : N) : JS.split s sep ≠ [].
Proof.
  destruct s as [|c s]; [done|]. simpl.
  destruct (c =? sep)%N; [done|]. by destruct (JS.split s sep).
Qed.

Lemma split_app (a b : JS.str) (sep : N) :
  JS.split (a ++ sep :: b) sep = JS.split a sep ++ JS.split b sep.
Proof.
  induction a as [|c a IH]; simpl.
  - by rewrite N.eqb_refl.
  - destruct (c =? sep)%N; [by rewrite IH|]. rewrite IH.
    pose proof (split_nonempty a sep). by destruct (JS.split a sep).
Qed.

Lemma split_without_separator (l : JS.str) (sep : N) :
  sep ∉ l → JS.split l sep = [l].
Proof.
  induction l as [|c l IH]; [done|]. intros Hn.
  apply not_elem_of_cons in Hn as [Hc Hl]. simpl.
  destruct (N.eqb_spec c sep); [congruence|]. by rewrite IH.
Qed.

Lemma parseGradleProperties_line_union (m : JS.obj) (l : JS.str) :
  parseGradleProperties_line m l = parseGradleProperties_line ∅ l ∪ m.
Proof.
  destruct (kept_dec l) as [Hkept|Hkept].
  2:{ rewrite !parseGradleProperties_line_skip by done.
      by rewrite (left_id_L ∅ (∪)). }
  destruct (decide (CHAR_EQUALS ∈ JS.trim l)) as [Hc|Hc].
  - destruct (first_separator _ Hc) as (k & v & Ht & Hk).
    rewrite !(parseGradleProperties_line_sep _ l k v) by done.
    unfold JS.obj_set. case_decide; [by rewrite (left_id_L ∅ (∪))|].
    by rewrite insert_union_singleton_l, insert_empty.
  - rewrite !parseGradleProperties_line_no_sep by done.
    by rewrite insert_union_singleton_l, insert_empty.
Qed.

Lemma foldl_lines_union (lines : list JS.str) (m : JS.obj) :
  foldl parseGradleProperties_line m lines =
  foldl parseGradleProperties_line ∅ lines ∪ m.
Proof.
  revert m. induction lines as [|l lines IH]; intros m; simpl.
  - by rewrite (left_id_L ∅ (∪)).
  - rewrite IH, (IH (parseGradleProperties_line ∅ l)).
    rewrite (parseGradleProperties_line_union m l).
    by rewrite (assoc_L (∪)).
Qed.

Lemma parse_app (a b : JS.str) :
  parseGradleProperties (a ++ CHAR_NEWLINE :: b) =
  parseGradleProperties b ∪ parseGradleProperties a.
Proof.
  unfold parseGradleProperties. rewrite split_app, foldl_app.
  apply foldl_lines_union.
Qed.

(** X2. Parsing two texts put one after the other with a line feed between
    them gives the properties of the second text over those of the first:
    every key of the second text has the second text's value, every other
    key the first text's. *)
Theorem parseGradleProperties_concat (a b : JS.str) :
  parseGradleProperties (a ++ CHAR_NEWLINE :: b) =
  parseGradleProperties b ∪ parseGradleProperties a.
Proof.
  unfold parseGradleProperties. rewrite split_app, foldl_app.
  apply foldl_lines_union.
Qed.

(** ** [parseGradleProperties]: the shape of keys and values *)

Lemma trimStart_subseteq (s : JS.str) (c : N) : c ∈ JS.trimStart s → c ∈ s.
Proof.
  destruct (trimStart_suffix s) as [p Hp]. intros Hc.
  rewrite Hp. apply elem_of_app. by right.
Qed.

Lemma trim_subseteq (s : JS.str) (c : N) : c ∈ JS.trim s → c ∈ s.
Proof.
  unfold JS.trim, JS.trimEnd. intros Hc.
  rewrite elem_of_reverse in Hc. apply trimStart_subseteq in Hc.
  rewrite elem_of_reverse in Hc. by apply trimStart_subseteq.
Qed.

(** A trimmed string does not end with white space. *)
Lemma trim_last (s : JS.str) (c : N) :
  last (JS.trim s) = Some c → JS.isWhiteSpace c = false.
Proof.
  unfold JS.trim, JS.trimEnd. rewrite last_reverse. intros Hh.
  destruct (JS.trimStart (reverse (JS.trimStart s))) as [|x r] eqn:Ht;
    [done|].
  injection Hh as ->. by apply (trimStart_head _ _ _ Ht).
Qed.

Lemma split_elem_no_separator (s l : JS.str) (sep : N) :
  l ∈ JS.split s sep → sep ∉ l.
Proof.
  revert l. induction s as [|c s IH]; intros l; simpl.
  - intros ->%list_elem_of_singleton. apply not_elem_of_nil.
  - destruct (N.eqb_spec c sep) as [->|Hne].
    + intros [->|Hl]%elem_of_cons; [apply not_elem_of_nil|by apply IH].
    + pose proof (split_nonempty s sep).
      destruct (JS.split s sep) as [|piece rest]; [done|].
      intros [->|Hl]%elem_of_cons.
      * apply not_elem_of_cons. split; [done|]. apply IH. by left.
      * apply IH. by right.
Qed.

Lemma startsWith_head (s : JS.str) (c x : N) :
  JS.startsWith (c :: s) [x] = (c =? x)%N.
Proof. simpl. destruct s; apply andb_true_r. Qed.

(** X3. Every key and value of the result of [parseGradleProperties] is
    well formed: the key is not [__proto__] and contains no [=]; neither
    key nor value contains a line feed; the key does not start with white
    space or [#], and the value does not end with white space. *)
Theorem parseGradleProperties_shape (content k v : JS.str) :
  parseGradleProperties content !! k = Some v →
  k ≠ JS.proto_key ∧ (CHAR_EQUALS ∉ k) ∧
  (CHAR_NEWLINE ∉ k) ∧ (CHAR_NEWLINE ∉ v) ∧
  (∀ c, head k = Some c → JS.isWhiteSpace c = false ∧ c ≠ CHAR_HASH) ∧
  (∀ c, last v = Some c → JS.isWhiteSpace c = false).
Proof.
  intros (pre & l & post & Hs & (Hkept & Hp & Ha) & _)%foldl_lines_lookup.
  assert (CHAR_NEWLINE ∉ JS.trim l) as Hnl.
  { intros Hc%trim_subseteq. revert Hc.
    apply (split_elem_no_separator content). rewrite Hs.
    apply elem_of_app. right. by left. }
  destruct Hkept as [Hne Hhash].
  destruct Ha as [[Hk Ht]|(Hn & -> & ->)].
  - rewrite Ht in Hnl. rewrite elem_of_app, elem_of_cons in Hnl.
    split; [done|]. split; [done|]. split; [tauto|]. split; [tauto|]. split.
    + intros c Hc. destruct k as [|c' k]; [done|]. injection Hc as ->.
      split; [by apply (trim_head l c (k ++ CHAR_EQUALS :: v))|].
      intros ->. rewrite Ht in Hhash.
      by rewrite <- app_comm_cons, startsWith_head, N.eqb_refl in Hhash.
    + intros c Hc. apply (trim_last l). rewrite Ht.
      rewrite last_app, last_cons, Hc. done.
  - split; [done|]. split; [apply not_elem_of_nil|].
    split; [apply not_elem_of_nil|]. split; [done|]. split; [done|].
    intros c. apply trim_last.
Qed.

Lemma parseGradleProperties_shape_witness :
  (CHAR_EQUALS ∉ JS.lit "b") ∧
  (∀ c, last (JS.lit "two=three") = Some c → JS.isWhiteSpace c = false).
Proof.
  destruct (parseGradleProperties_shape example_properties
              (JS.lit "b") (JS.lit "two=three")) as (_ & H1 & _ & _ & _ & H2).
  - by vm_compute.
  - by split.
Defined.

(** ** [parseGradleProperties]: white space around lines *)

Lemma trimStart_white (ws s : JS.str) :
  white ws → JS.trimStart (ws ++ s) = JS.trimStart s.
Proof.
  induction 1 as [|c ws Hc _ IH]; [done|]. simpl. by rewrite Hc.
Qed.

Lemma white_trimStart (s : JS.str) : white s → JS.trimStart s = [].
Proof.
  intros Hw. by rewrite <- (app_nil_r s), trimStart_white.
Qed.

Lemma trimStart_nil_white (s : JS.str) : JS.trimStart s = [] → white s.
Proof.
  induction s as [|c s IH]; [constructor|]. simpl.
  destruct (JS.isWhiteSpace c) eqn:Hc; [|done].
  intros Hs. constructor; [done|by apply IH].
Qed.

Lemma trimStart_app (s t : JS.str) :
  JS.trimStart s ≠ [] → JS.trimStart (s ++ t) = JS.trimStart s ++ t.
Proof.
  induction s as [|c s IH]; [done|]. simpl.
  destruct (JS.isWhiteSpace c); [apply IH|done].
Qed.

Lemma trimEnd_white (s ws : JS.str) :
  white ws → JS.trimEnd (s ++ ws) = JS.trimEnd s.
Proof.
  intros Hw. unfold JS.trimEnd. rewrite reverse_app, trimStart_white; [done|].
  by apply Forall_reverse.
Qed.

(** White space on either side of a string does not survive [trim]. *)
Lemma trim_pad (w1 l w2 : JS.str) :
  white w1 → white w2 → JS.trim (w1 ++ l ++ w2) = JS.trim l.
Proof.
  intros H1 H2. unfold JS.trim. rewrite trimStart_white by done.
  destruct (JS.trimStart l) as [|c r] eqn:Hl.
  - rewrite white_trimStart; [done|].
    apply Forall_app. split; [by apply trimStart_nil_white|done].
  - rewrite trimStart_app, Hl by by rewrite Hl.
    by apply trimEnd_white.
Qed.

Lemma split_unlines (lines : list JS.str) :
  lines ≠ [] → Forall (λ l, CHAR_NEWLINE ∉ l) lines →
  JS.split (unlines [CHAR_NEWLINE] lines) CHAR_NEWLINE = lines.
Proof.
  induction lines as [|l lines IH]; [done|]. intros _ Hall.
  apply Forall_cons in Hall as [Hl Hall].
  destruct lines as [|l' lines].
  - by apply split_without_separator.
  - change (unlines [CHAR_NEWLINE] (l :: l' :: lines))
      with (l ++ CHAR_NEWLINE :: unlines [CHAR_NEWLINE] (l' :: lines)).
    rewrite split_app, split_without_separator, IH by done. done.
Qed.

Lemma foldl_lines_trim (lines lines' : list JS.str) (m : JS.obj) :
  Forall2 (λ l l', JS.trim l' = JS.trim l) lines lines' →
  foldl parseGradleProperties_line m lines' =
  foldl parseGradleProperties_line m lines.
Proof.
  intros Hall. revert m.
  induction Hall as [|l l' lines lines' Ht _ IH]; intros m; [done|].
  simpl. rewrite IH. f_equal.
  unfold parseGradleProperties_line. by rewrite Ht.
Qed.

(** X4. The result of [parseGradleProperties] does not depend on white
    space at the start or at the end of its lines: padding every line of a
    text with white space (indentation, trailing blanks, a carriage
    return, a byte-order mark) leaves the result unchanged. *)
Theorem parseGradleProperties_padding (lines padded : list JS.str) :
  Forall2 (λ l l', (CHAR_NEWLINE ∉ l) ∧ (CHAR_NEWLINE ∉ l') ∧
                   ∃ w1 w2, white w1 ∧ white w2 ∧ l' = w1 ++ l ++ w2)
    lines padded →
  parseGradleProperties (unlines [CHAR_NEWLINE] padded) =
  parseGradleProperties (unlines [CHAR_NEWLINE] lines).
Proof.
  intros Hall.
  destruct Hall as [|l l' lines lines' Hl Hall]; [done|].
  assert (Forall2 (λ l l', (CHAR_NEWLINE ∉ l) ∧ (CHAR_NEWLINE ∉ l') ∧
                   ∃ w1 w2, white w1 ∧ white w2 ∧ l' = w1 ++ l ++ w2)
            (l :: lines) (l' :: lines')) as H by by constructor.
  clear Hl Hall. unfold parseGradleProperties.
  rewrite !split_unlines; try done.
  - apply foldl_lines_trim. eapply Forall2_impl; [exact H|].
    intros x y (_ & _ & w1 & w2 & H1 & H2 & ->). by apply trim_pad.
  - eapply Forall2_Forall_l; [exact H|]. apply Forall_true. by intros ? ? [? _].
  - eapply Forall2_Forall_r; [exact H|]. apply Forall_true.
    by intros ? ? (_ & ? & _).
Qed.

Lemma parseGradleProperties_padding_witness :
  parseGradleProperties
    (unlines [CHAR_NEWLINE]
       [[65279%N] ++ JS.lit "a=1" ++ [CHAR_RETURN];
        JS.lit "  " ++ JS.lit "b=2" ++ []]) =
  parseGradleProperties (unlines [CHAR_NEWLINE] [JS.lit "a=1"; JS.lit "b=2"]).
Proof.
  apply parseGradleProperties_padding.
  repeat constructor; try (apply (bool_decide_unpack _); by vm_compute).
  - exists [65279%N], [CHAR_RETURN]. by repeat constructor.
  - exists (JS.lit "  "), []. by repeat constructor.
Defined.

(** X5. Windows line endings do not matter: a text whose lines are
    separated by carriage return and line feed parses to the same
    properties as the text with the lines separated by line feeds. *)
Theorem parseGradleProperties_crlf (lines : list JS.str) :
  Forall (λ l, CHAR_NEWLINE ∉ l) lines →
  parseGradleProperties (unlines [CHAR_RETURN; CHAR_NEWLINE] lines) =
  parseGradleProperties (unlines [CHAR_NEWLINE] lines).
Proof.
  induction 1 as [|l lines Hl Hall IH]; [done|].
  destruct lines as [|l' lines]; [done|].
  change (unlines [CHAR_RETURN; CHAR_NEWLINE] (l :: l' :: lines))
    with (l ++ CHAR_RETURN ::
            CHAR_NEWLINE :: unlines [CHAR_RETURN; CHAR_NEWLINE] (l' :: lines)).
  change (unlines [CHAR_NEWLINE] (l :: l' :: lines))
    with (l ++ CHAR_NEWLINE :: unlines [CHAR_NEWLINE] (l' :: lines)).
  replace (l ++ CHAR_RETURN :: CHAR_NEWLINE ::
             unlines [CHAR_RETURN; CHAR_NEWLINE] (l' :: lines))
    with ((l ++ [CHAR_RETURN]) ++ CHAR_NEWLINE ::
            unlines [CHAR_RETURN; CHAR_NEWLINE] (l' :: lines))
    by by rewrite <- app_assoc.
  rewrite !parse_app, IH. f_equal.
  unfold parseGradleProperties.
  rewrite !split_without_separator; [|done|].
  - simpl. unfold parseGradleProperties_line.
    rewrite <- (trim_pad [] l [CHAR_RETURN]); [done|constructor|].
    by repeat constructor.
  - rewrite elem_of_app, list_elem_of_singleton. by intros [?|?].
Qed.

Lemma parseGradleProperties_crlf_witness :
  parseGradleProperties
    (unlines [CHAR_RETURN; CHAR_NEWLINE] [JS.lit "a=1"; JS.lit "b=2"]) =
  parseGradleProperties (unlines [CHAR_NEWLINE] [JS.lit "a=1"; JS.lit "b=2"]).
Proof.
  apply parseGradleProperties_crlf.
  repeat constructor; apply (bool_decide_unpack _); by vm_compute.
Defined.

(** ** The header functions: further properties *)

Section HeaderFurther.

Context {json : Type} (h : host json).

Lemma readUInt32LE_bound (buf : Buffer.t) (offset : nat) (v : N) :
  Buffer.readUInt32LE buf offset = Some v → (v < 2 ^ 32)%N.
Proof.
  unfold Buffer.readUInt32LE.
  destruct (drop offset buf) as [|b0 [|b1 [|b2 [|b3 r]]]]; try done.
  intros [= <-].
  pose proof (Byte.to_N_bounded b0). pose proof (Byte.to_N_bounded b1).
  pose proof (Byte.to_N_bounded b2). pose proof (Byte.to_N_bounded b3).
  change (2 ^ 8)%N with 256%N. change (2 ^ 16)%N with 65536%N.
  change (2 ^ 24)%N with 16777216%N. change (2 ^ 32)%N with 4294967296%N.
  lia.
Qed.

Lemma padded_header_version (data : list byte) :
  is_Some (Buffer.readUInt32LE
             (take 12 data ++ replicate (12 - length data) x00) 8).
Proof.
  assert (length (drop 8 (take 12 data ++ replicate (12 - length data) x00))
          = 4%nat) as Hlen.
  { rewrite length_drop, length_app, length_take, length_replicate. lia. }
  unfold Buffer.readUInt32LE.
  by destruct (drop 8 _) as [|b0 [|b1 [|b2 [|b3 r]]]].
Qed.

(** X6. On a readable file the two header functions agree:
    [getHermesBytecodeBundleVersionAsync] returns a version exactly when
    [isHermesBytecodeBundleAsync] answers true, and a version it returns
    is below 2^32. *)
Theorem hermes_version_iff_bundle (w : world) (file : JS.str)
    (data : list byte) :
  readable h (fs w) file data →
  ((isHermesBytecodeBundleAsync h file w).1 = Ok true ↔
   ∃ v, (getHermesBytecodeBundleVersionAsync h file w).1 = Ok v) ∧
  (∀ v, (getHermesBytecodeBundleVersionAsync h file w).1 = Ok v →
        (v < 2 ^ 32)%N).
Proof.
  intros Hr.
  unfold isHermesBytecodeBundleAsync, getHermesBytecodeBundleVersionAsync,
    bind.
  rewrite (readHermesHeaderAsync_readable h w file data Hr). simpl.
  destruct (padded_header_version data) as [v0 Hv0].
  destruct (decide (Buffer.toString_hex
                      (Buffer.slice
                         (take 12 data ++ replicate (12 - length data) x00)
                         0 8) = HERMES_MAGIC_HEADER)) as [Hm|Hm].
  - rewrite (bool_decide_eq_true_2 _ Hm), bool_decide_eq_false_2 by tauto.
    rewrite Hv0. simpl. split; [split; by eauto|].
    intros v [= <-]. by apply (readUInt32LE_bound _ _ _ Hv0).
  - rewrite (bool_decide_eq_false_2 _ Hm), bool_decide_eq_true_2 by done.
    simpl. split; [|done]. split; [done|by intros [? ?]].
Qed.

(** X7. The header functions only read: whatever the file and whatever the
    host refuses, the files and directories are the same after
    [readHermesHeaderAsync], [isHermesBytecodeBundleAsync] and
    [getHermesBytecodeBundleVersionAsync] as before. *)
Theorem header_functions_read_only (w : world) (file : JS.str) :
  fs (readHermesHeaderAsync h file w).2 = fs w ∧
  fs (isHermesBytecodeBundleAsync h file w).2 = fs w ∧
  fs (getHermesBytecodeBundleVersionAsync h file w).2 = fs w.
Proof.
  assert (fs (readHermesHeaderAsync h file w).2 = fs w) as Hread.
  { unfold readHermesHeaderAsync, bind, fs_open, fs_read, fs_close, fs_op, ret.
    simpl.
    destruct (fs_fault h (Open file) (fs w)); [done|].
    destruct (files (fs w) !! file) eqn:Hf; [|done]. simpl.
    destruct (fs_fault h (Read file) (fs w)); [done|]. rewrite Hf. simpl.
    by destruct (fs_fault h (Close file) (fs w)). }
  split; [done|].
  unfold isHermesBytecodeBundleAsync, getHermesBytecodeBundleVersionAsync,
    bind.
  destruct (readHermesHeaderAsync h file w) as [[header|e] w1]; simpl in *;
    [|done].
  split; [done|]. destruct (bool_decide _); [done|].
  by destruct (Buffer.readUInt32LE header 8).
Qed.

(** X8. [readHermesHeaderAsync] closes the descriptor only after a
    successful read: when the file opens and the read is refused, the call
    fails with the error of the read and [fs.close] is never called; when
    nothing exists at the path, neither a file nor a directory, the call
    fails with [ENOENT] on opening and nothing is read or closed. *)
Theorem readHermesHeaderAsync_failures (w : world) (file : JS.str) :
  fs_fault h (Open file) (fs w) = None →
  (∀ data code,
     files (fs w) !! file = Some data →
     fs_fault h (Read file) (fs w) = Some code →
     readHermesHeaderAsync h file w =
     (Err (FsError (Read file) code),
      {| fs := fs w;
         log := log w ++ [FsCall (Open file); FsCall (Read file)] |})) ∧
  (absent (fs w) file →
   readHermesHeaderAsync h file w =
   (Err (FsError (Open file) ENOENT),
    {| fs := fs w; log := log w ++ [FsCall (Open file)] |})).
Proof.
  intros Ho.
  unfold readHermesHeaderAsync, bind, fs_open, fs_read, fs_close, fs_op, ret.
  simpl. rewrite Ho. split.
  - intros data code Hf Hr. rewrite Hf. simpl. rewrite Hr.
    by rewrite <- app_assoc.
  - intros [Hf _]. by rewrite Hf.
Qed.

End HeaderFurther.

Lemma hermes_version_iff_bundle_witness :
  (isHermesBytecodeBundleAsync (example_host stub_compiler no_fault)
     (JS.lit "/app/index.hbc")
     (start {| files := {[ JS.lit "/app/index.hbc" := magic_bytes ]};
               dirs := ∅ |})).1 = Ok true ↔
  ∃ v, (getHermesBytecodeBundleVersionAsync
          (example_host stub_compiler no_fault) (JS.lit "/app/index.hbc")
          (start {| files := {[ JS.lit "/app/index.hbc" := magic_bytes ]};
                    dirs := ∅ |})).1 = Ok v.
Proof.
  refine (proj1 (hermes_version_iff_bundle _ _ (JS.lit "/app/index.hbc")
                   magic_bytes _)).
  by vm_compute.
Defined.

Lemma readHermesHeaderAsync_failures_witness :
  readHermesHeaderAsync (example_host stub_compiler no_fault)
    (JS.lit "/app/missing.hbc") (start empty_fs) =
  (Err (FsError (Open (JS.lit "/app/missing.hbc")) ENOENT),
   {| fs := empty_fs; log := [FsCall (Open (JS.lit "/app/missing.hbc"))] |}).
Proof.
  refine (proj2 (readHermesHeaderAsync_failures
                   (example_host stub_compiler no_fault) (start empty_fs)
                   (JS.lit "/app/missing.hbc") _) _); [reflexivity|].
  split; [reflexivity|]. apply not_elem_of_empty.
Defined.

(** ** The compiler executable *)

Lemma getHermesCommandPlatform_table {json : Type} (h : host json)
    (executable : JS.str) :
  getHermesCommandPlatform h = Ok executable ↔
  (os_platform h, executable) ∈ hermes_executables.
Proof.
  unfold getHermesCommandPlatform, hermes_executables.
  rewrite !elem_of_cons, elem_of_nil.
  destruct (decide (os_platform h = JS.lit "darwin")) as [->|H1].
  { split; [intros [= <-]; by left|].
    by intros [[= <-]|[[=]|[[=]|[]]]]. }
  destruct (decide (os_platform h = JS.lit "linux")) as [->|H2].
  { split; [intros [= <-]; right; by left|].
    by intros [[=]|[[= <-]|[[=]|[]]]]. }
  destruct (decide (os_platform h = JS.lit "win32")) as [->|H3].
  { split; [intros [= <-]; right; right; by left|].
    by intros [[=]|[[=]|[[= <-]|[]]]]. }
  split; [done|].
  intros [[= ? _]|[[= ? _]|[[= ? _]|[]]]]; congruence.
Qed.

Lemma getHermesCommandPlatform_unsupported {json : Type} (h : host json) :
  (∀ executable, (os_platform h, executable) ∉ hermes_executables) →
  getHermesCommandPlatform h = Err (UnsupportedPlatform (os_platform h)).
Proof.
  intros Hn.
  destruct (getHermesCommandPlatform h) as [executable|e] eqn:Hp.
  - apply getHermesCommandPlatform_table in Hp. by destruct (Hn executable).
  - revert Hp. unfold getHermesCommandPlatform.
    repeat case_decide; congruence.
Qed.

(** X9. [getHermesCommand] returns a command exactly when the host
    platform is one of darwin, linux and win32 and the module
    [hermes-engine/<executable>] of that platform resolves from the
    project to a non-empty path, which is the command; on any other
    platform it fails with the unsupported-platform error whatever the
    project contains. *)
Theorem getHermesCommand_result {json : Type} (h : host json)
    (projectRoot : JS.str) :
  (∀ command,
     getHermesCommand h projectRoot = Ok command ↔
     ∃ executable,
       (os_platform h, executable) ∈ hermes_executables ∧
       resolveFrom_silent h projectRoot
         (JS.lit "hermes-engine/" ++ executable) = Some command ∧
       command ≠ []) ∧
  ((∀ executable, (os_platform h, executable) ∉ hermes_executables) →
   getHermesCommand h projectRoot = Err (UnsupportedPlatform (os_platform h))).
Proof.
  split.
  - intros command. unfold getHermesCommand.
    destruct (getHermesCommandPlatform h) as [executable|e] eqn:Hp.
    + split.
      * destruct (resolveFrom_silent h projectRoot _) as [[|c r]|] eqn:Hr;
          try done.
        intros [= <-]. exists executable.
        split; [by apply getHermesCommandPlatform_table|]. by split.
      * intros (executable' & Ht & Hr & Hne).
        apply getHermesCommandPlatform_table in Ht.
        rewrite Hp in Ht. injection Ht as <-. rewrite Hr.
        by destruct command.
    + split; [done|]. intros (executable & Ht & _).
      apply getHermesCommandPlatform_table in Ht. congruence.
  - intros Hn. unfold getHermesCommand.
    by rewrite getHermesCommandPlatform_unsupported.
Qed.

(** ** The build: error paths and the returned bundle *)

Section BuildFurther.

Context {json : Type} (h : host json).

Lemma fs_writeFile_ok (file data : JS.str) (w : world) :
  fs_fault h (WriteFile file data) (fs w) = None →
  fs_writeFile h file data w =
  (Ok (), {| fs := {| files := <[file := utf8 h data]> (files (fs w));
                      dirs := dirs (fs w) |};
             log := log w ++ [FsCall (WriteFile file data)] |}).
Proof. intros Hf. unfold fs_writeFile, fs_op. by rewrite Hf. Qed.

Lemma fs_remove_run (path : JS.str) (w : world) :
  fs_remove h path w =
  (match fs_fault h (Remove path) (fs w) with
   | Some code => Err (FsError (Remove path) code)
   | None => Ok ()
   end,
   {| fs := match fs_fault h (Remove path) (fs w) with
            | Some _ => fs w
            | None => without path (fs w)
            end;
      log := log w ++ [FsCall (Remove path)] |}).
Proof.
  unfold fs_remove, fs_op. by destruct (fs_fault h (Remove path) (fs w)).
Qed.

Lemma spawnAsync_run (command : JS.str) (args : list JS.str) (w : world) :
  spawnAsync h command args w =
  (if decide ((spawn h command args (fs w)).1 = Exited 0) then Ok ()
   else Err (SpawnError (spawn h command args (fs w)).1),
   {| fs := (spawn h command args (fs w)).2;
      log := log w ++ [Spawn command args] |}).
Proof.
  unfold spawnAsync. destruct (spawn h command args (fs w)) as [r s]. simpl.
  by destruct r as [[| |]|].
Qed.

(** The [try] block up to the resolution of the compiler, when the host
    refuses no staging call. *)
Lemma buildHermesBundle_body_staged
    (projectRoot code map : JS.str) (optimize : bool) (s : filesystem)
    (l : list event) :
  staging_faultless h →
  buildHermesBundle_body h projectRoot code map optimize
    {| fs := {| files := files s; dirs := {[tempDir h]} ∪ dirs s |};
       log := l |} =
  let w := {| fs := staged h code map s;
              log := (l ++ [FsCall (WriteFile
                              (path_join (tempDir h) (JS.lit "index.bundle"))
                              code)]) ++
                     [FsCall (WriteFile
                              (path_join (tempDir h)
                                 (JS.lit "index.bundle.map")) map)] |} in
  match getHermesCommand h projectRoot with
  | Err e => (Err e, w)
  | Ok command =>
      bind (spawnAsync h command (expected_args h optimize))
        (λ _, bind (Promise_all h
                      (fs_readFile h (path_join (tempDir h) (JS.lit "index.hbc")))
                      (createHermesSourcemapAsync h projectRoot map
                         (path_join (tempDir h) (JS.lit "index.hbc") ++
                          JS.lit ".map")))
                (λ r, ret {| hbc := r.1; sourcemap := r.2 |})) w
  end.
Proof.
  intros Hs. unfold buildHermesBundle_body.
  unfold bind at 1. rewrite fs_writeFile_ok by apply (Hs (WriteFile _ _)).
  unfold bind at 1. rewrite fs_writeFile_ok by apply (Hs (WriteFile _ _)).
  unfold bind at 1, lift. simpl.
  destruct (getHermesCommand h projectRoot) as [command|e]; [|done].
  unfold expected_args. by destruct optimize.
Qed.

Lemma buildHermesBundleAsync_staged
    (projectRoot code map : JS.str) (optimize : bool) (s : filesystem) :
  staging_faultless h →
  buildHermesBundleAsync h projectRoot code map optimize (start s) =
  try_finally (buildHermesBundle_body h projectRoot code map optimize)
    (fs_remove h (tempDir h))
    {| fs := {| files := files s; dirs := {[tempDir h]} ∪ dirs s |};
       log := [FsCall (EnsureDir (tempDir h))] |}.
Proof.
  intros Hs. unfold buildHermesBundleAsync, bind.
  by rewrite fs_ensureDir_ok by apply (Hs (EnsureDir _)).
Qed.

(** X10. When the creation of the workspace is refused the build stops
    there: it fails with the error of [ensureDir], writes nothing, starts
    no process and does not attempt a removal. *)
Theorem buildHermesBundleAsync_no_workspace
    (projectRoot code map : JS.str) (optimize : bool) (w : world)
    (c : JS.str) :
  fs_fault h (EnsureDir (tempDir h)) (fs w) = Some c →
  buildHermesBundleAsync h projectRoot code map optimize w =
  (Err (FsError (EnsureDir (tempDir h)) c),
   {| fs := fs w; log := log w ++ [FsCall (EnsureDir (tempDir h))] |}).
Proof.
  intros Hf. unfold buildHermesBundleAsync, bind.
  by rewrite (fs_ensureDir_fault h _ c).
Qed.

(** X11. When the compiler cannot be found (unsupported platform or
    missing [hermes-engine]) on a host that refuses no staging call, the
    bundle and its map have already been written; the build then removes
    the workspace without starting a process or reading anything, and
    fails with the error of the resolution, or with the error of the
    removal when that is refused. *)
Theorem buildHermesBundleAsync_no_compiler
    (projectRoot code map : JS.str) (optimize : bool) (s : filesystem)
    (e : error) :
  staging_faultless h →
  getHermesCommand h projectRoot = Err e →
  (buildHermesBundleAsync h projectRoot code map optimize (start s)).1 =
    match fs_fault h (Remove (tempDir h)) (staged h code map s) with
    | Some c => Err (FsError (Remove (tempDir h)) c)
    | None => Err e
    end ∧
  log (buildHermesBundleAsync h projectRoot code map optimize (start s)).2 =
    [FsCall (EnsureDir (tempDir h));
     FsCall (WriteFile (path_join (tempDir h) (JS.lit "index.bundle")) code);
     FsCall (WriteFile (path_join (tempDir h) (JS.lit "index.bundle.map")) map);
     FsCall (Remove (tempDir h))].
Proof.
  intros Hs He.
  assert (buildHermesBundleAsync h projectRoot code map optimize
                  (start s) =
          (match fs_fault h (Remove (tempDir h)) (staged h code map s) with
           | Some c => Err (FsError (Remove (tempDir h)) c)
           | None => Err e
           end,
           {| fs := match fs_fault h (Remove (tempDir h))
                            (staged h code map s) with
                    | Some _ => staged h code map s
                    | None => without (tempDir h) (staged h code map s)
                    end;
              log := [FsCall (EnsureDir (tempDir h));
                      FsCall (WriteFile (path_join (tempDir h)
                                (JS.lit "index.bundle")) code);
                      FsCall (WriteFile (path_join (tempDir h)
                                (JS.lit "index.bundle.map")) map);
                      FsCall (Remove (tempDir h))] |})) as ->; [|done].
  rewrite buildHermesBundleAsync_staged by done.
  unfold try_finally. rewrite buildHermesBundle_body_staged by done.
  rewrite He. cbv beta iota zeta. rewrite fs_remove_run. simpl.
  by destruct (fs_fault h (Remove (tempDir h)) (staged h code map s)).
Qed.

(** X12. When the compiler fails (it cannot be started or exits with a
    status other than 0) on a host that refuses no staging call, the build
    reads neither the bytecode nor the compiler's map: it removes the
    workspace and fails with the error of the process (or of the removal,
    when that is refused). The compiler ran on the staged files. *)
Theorem buildHermesBundleAsync_compiler_failure
    (projectRoot code map command : JS.str) (optimize : bool)
    (s s' : filesystem) (r : spawn_result) :
  staging_faultless h →
  getHermesCommand h projectRoot = Ok command →
  spawn h command (expected_args h optimize) (staged h code map s) = (r, s') →
  r ≠ Exited 0 →
  (buildHermesBundleAsync h projectRoot code map optimize (start s)).1 =
    match fs_fault h (Remove (tempDir h)) s' with
    | Some c => Err (FsError (Remove (tempDir h)) c)
    | None => Err (SpawnError r)
    end ∧
  log (buildHermesBundleAsync h projectRoot code map optimize (start s)).2 =
    [FsCall (EnsureDir (tempDir h));
     FsCall (WriteFile (path_join (tempDir h) (JS.lit "index.bundle")) code);
     FsCall (WriteFile (path_join (tempDir h) (JS.lit "index.bundle.map")) map);
     Spawn command (expected_args h optimize);
     FsCall (Remove (tempDir h))].
Proof.
  intros Hs Hc Hsp Hr.
  assert (buildHermesBundleAsync h projectRoot code map optimize
                   (start s) =
          (match fs_fault h (Remove (tempDir h)) s' with
           | Some c => Err (FsError (Remove (tempDir h)) c)
           | None => Err (SpawnError r)
           end,
           {| fs := match fs_fault h (Remove (tempDir h)) s' with
                    | Some _ => s'
                    | None => without (tempDir h) s'
                    end;
              log := [FsCall (EnsureDir (tempDir h));
                      FsCall (WriteFile (path_join (tempDir h)
                                (JS.lit "index.bundle")) code);
                      FsCall (WriteFile (path_join (tempDir h)
                                (JS.lit "index.bundle.map")) map);
                      Spawn command (expected_args h optimize);
                      FsCall (Remove (tempDir h))] |})) as ->; [|done].
  rewrite buildHermesBundleAsync_staged by done.
  unfold try_finally. rewrite buildHermesBundle_body_staged by done.
  rewrite Hc. cbv beta iota zeta. unfold bind at 1. rewrite spawnAsync_run.
  cbn [fs]. rewrite Hsp. cbn [fst snd]. rewrite decide_False by done.
  cbv beta iota zeta. rewrite fs_remove_run. simpl.
  by destruct (fs_fault h (Remove (tempDir h)) s').
Qed.

(** X13. The successful build. On a host that refuses none of the calls,
    with a compiler that exits with 0 on the staged files and leaves the
    bytecode and its map at the paths it was given, and with both maps
    parsable and composable, [buildHermesBundleAsync] returns the bytes of
    the bytecode file and the serialised composition of the bundler's map
    with the compiler's map. *)
Theorem buildHermesBundleAsync_success
    (projectRoot code map command resolved : JS.str) (optimize : bool)
    (s s' : filesystem) (bytecode mapData : list byte)
    (bundlerMap compilerMap composed : json) :
  (∀ c s0, fs_fault h c s0 = None) →
  getHermesCommand h projectRoot = Ok command →
  spawn h command (expected_args h optimize) (staged h code map s)
    = (Exited 0, s') →
  files s' !! path_join (tempDir h) (JS.lit "index.hbc") = Some bytecode →
  files s' !! (path_join (tempDir h) (JS.lit "index.hbc") ++ JS.lit ".map")
    = Some mapData →
  resolveFrom_silent h projectRoot
    (JS.lit "metro-source-map/src/composeSourceMaps") = Some resolved →
  JS.truthy resolved = true →
  JSON_parse h map = Some bundlerMap →
  readJSON_parse h mapData = Some compilerMap →
  require_composeSourceMaps h resolved [bundlerMap; compilerMap]
    = Some composed →
  (buildHermesBundleAsync h projectRoot code map optimize (start s)).1 =
    Ok {| hbc := bytecode; sourcemap := JSON_stringify h composed |}.
Proof.
  intros Hf Hc Hsp Hhbc Hmap Hres Ht Hparse Hjson Hcomp.
  rewrite buildHermesBundleAsync_staged by (intros [] ?; by try apply Hf).
  unfold try_finally.
  rewrite buildHermesBundle_body_staged by (intros [] ?; by try apply Hf).
  rewrite Hc. cbv beta iota zeta. unfold bind at 1. rewrite spawnAsync_run.
  cbn [fs]. rewrite Hsp. cbn [fst snd]. rewrite decide_True by done.
  cbv beta iota zeta.
  unfold bind at 1, Promise_all, fs_readFile at 1, fs_op at 1. simpl.
  rewrite Hf, Hhbc.
  unfold createHermesSourcemapAsync, importMetroSourceMapFromProject, bind,
    lift, fs_readJSON, fs_op. simpl.
  rewrite Hres, Ht, Hparse. simpl. rewrite Hf, Hmap, Hjson, Hcomp. simpl.
  rewrite fs_remove_run. simpl. by rewrite Hf.
Qed.

End BuildFurther.

Lemma buildHermesBundleAsync_no_workspace_witness :
  (buildHermesBundleAsync
     (example_host stub_compiler
        (λ c _, match c with
                | EnsureDir _ => Some (JS.lit "EACCES")
                | _ => None
                end))
     (JS.lit "/app") (JS.lit "code") (JS.lit "{bundler map}") false
     (start empty_fs)).1 =
  Err (FsError (EnsureDir (JS.lit "/tmp/expo-bundler-4242")) (JS.lit "EACCES")).
Proof.
  refine (f_equal fst (buildHermesBundleAsync_no_workspace _ _ _ _ _ _ _ _)).
  reflexivity.
Defined.

Lemma buildHermesBundleAsync_no_compiler_witness :
  (buildHermesBundleAsync
     {| os_tmpdir := JS.lit "/tmp";
        os_platform := JS.lit "freebsd";
        process_pid := 7;
        resolveFrom_silent := λ _ _, None;
        utf8 := ascii_bytes;
        JSON_parse := example_parse;
        JSON_stringify := example_stringify;
        readJSON_parse := λ data, example_parse (Byte.to_N <$> data);
        require_composeSourceMaps := λ _, SourceMap.composeSourceMaps;
        spawn := stub_compiler;
        fs_fault := no_fault;
        second_rejects_first := false |}
     (JS.lit "/app") (JS.lit "code") (JS.lit "{bundler map}") false
     (start empty_fs)).1 =
  Err (UnsupportedPlatform (JS.lit "freebsd")).
Proof.
  refine (proj1 (buildHermesBundleAsync_no_compiler _ _ _ _ _ _ _ _ _)).
  - by intros [] ?.
  - reflexivity.
Defined.

Lemma buildHermesBundleAsync_compiler_failure_witness :
  (buildHermesBundleAsync (example_host failing_compiler no_fault)
     (JS.lit "/app") (JS.lit "code") (JS.lit "{bundler map}") true
     (start empty_fs)).1 = Err (SpawnError (Exited 1)).
Proof.
  refine (proj1 (buildHermesBundleAsync_compiler_failure
                   (example_host failing_compiler no_fault)
                   (JS.lit "/app") (JS.lit "code") (JS.lit "{bundler map}")
                   (JS.lit "/app/node_modules/hermes-engine/linux64-bin/hermesc")
                   true empty_fs _ (Exited 1) _ _ _ _)).
  - by intros [] ?.
  - reflexivity.
  - reflexivity.
  - done.
Defined.

Lemma buildHermesBundleAsync_success_witness :
  (buildHermesBundleAsync (example_host stub_compiler no_fault)
     (JS.lit "/app") (JS.lit "code") (JS.lit "{bundler map}") true
     (start empty_fs)).1 =
  Ok {| hbc := ascii_bytes (JS.lit "code");
        sourcemap := JS.lit "{composed map}" |}.
Proof.
  refine (buildHermesBundleAsync_success
            (example_host stub_compiler no_fault)
            (JS.lit "/app") (JS.lit "code") (JS.lit "{bundler map}")
            (JS.lit "/app/node_modules/hermes-engine/linux64-bin/hermesc")
            (JS.lit "/app/node_modules/metro-source-map/src/composeSourceMaps")
            true empty_fs
            (stub_compiler
               (JS.lit "/app/node_modules/hermes-engine/linux64-bin/hermesc")
               (expected_args (example_host stub_compiler no_fault) true)
               (staged (example_host stub_compiler no_fault)
                  (JS.lit "code") (JS.lit "{bundler map}") empty_fs)).2
            (ascii_bytes (JS.lit "code"))
            (ascii_bytes (JS.lit "{compiler map}"))
            bundler_map compiler_map composed_map _ _ _ _ _ _ _ _ _ _);
    reflexivity.
Defined.

(** ** What the build leaves alone *)











Section Frame.

Context {json : Type} (h : host json) (p : JS.str).












End Frame.


(** ** The composition of the source maps: order of the checks *)



(** ** Regular expressions: the matcher and what a pattern matches *)

Lemma last_of_cons (prev : option N) (c : N) (s : JS.str) :
  RegExp.last_of prev (c :: s) = RegExp.last_of (Some c) s.
Proof.
  unfold RegExp.last_of. destruct s as [|x s]; [done|].
  rewrite last_cons_cons. destruct (last (x :: s)) eqn:Hl; [done|].
  by apply last_None in Hl.
Qed.

Lemma last_of_app (prev : option N) (s1 s2 : JS.str) :
  RegExp.last_of prev (s1 ++ s2) = RegExp.last_of (RegExp.last_of prev s1) s2.
Proof.
  revert prev. induction s1 as [|c s1 IH]; intros prev; [done|].
  simpl. by rewrite !last_of_cons, IH.
Qed.

Lemma star_correct (a : RegExp.atom) (prev : option N) (s : JS.str)
    (k : option N → JS.str → bool) :
  RegExp.star a prev s k = true ↔
  ∃ s1 s2, s = s1 ++ s2 ∧
    Forall (λ c, RegExp.atom_matches a c = true) s1 ∧
    k (RegExp.last_of prev s1) s2 = true.
Proof.
  revert prev. induction s as [|c s IH]; intros prev; simpl.
  - split.
    + intros Hk. by exists [], [].
    + intros (s1 & s2 & He & _ & Hk).
      symmetry in He. apply app_eq_nil in He as [-> ->]. done.
  - rewrite orb_true_iff, andb_true_iff, IH. split.
    + intros [[Hc (s1 & s2 & -> & Hall & Hk)]|Hk].
      * exists (c :: s1), s2. rewrite last_of_cons.
        split; [done|]. split; [by constructor|done].
      * by exists [], (c :: s).
    + intros (s1 & s2 & He & Hall & Hk). destruct s1 as [|x s1].
      * right. simpl in He. by rewrite He.
      * injection He as <- ->. apply Forall_cons in Hall as [Hc Hall].
        rewrite last_of_cons in Hk. left. split; [done|]. by exists s1, s2.
Qed.

(** The matcher finds what the pattern matches: it succeeds from a
    position exactly when some prefix of the input there is matched by
    the pattern and the continuation accepts what follows. *)
Lemma run_correct (r : RegExp.t) (prev : option N) (s : JS.str)
    (k : option N → JS.str → bool) :
  RegExp.run r prev s k = true ↔
  ∃ s1 s2, s = s1 ++ s2 ∧ RegExp.matches r prev s1 ∧
    k (RegExp.last_of prev s1) s2 = true.
Proof.
  revert prev s k.
  induction r as [|a| |r1 IH1 r2 IH2|a|a|r IH]; intros prev s k; simpl.
  - split.
    + intros Hk. exists [], s. split; [done|]. split; [constructor|done].
    + intros (s1 & s2 & -> & Hm & Hk). by inversion Hm; subst.
  - split.
    + destruct s as [|c s]; [done|]. intros [Hc Hk]%andb_true_iff.
      exists [c], s. split; [done|]. split; [by constructor|done].
    + intros (s1 & s2 & -> & Hm & Hk). inversion Hm; subst. simpl.
      by apply andb_true_iff.
  - rewrite andb_true_iff. split.
    + intros [Hp Hk]. exists [], s.
      split; [done|]. split; [by constructor|done].
    + intros (s1 & s2 & -> & Hm & Hk). by inversion Hm; subst.
  - rewrite IH1. split.
    + intros (s1 & s2 & -> & Hm1 & (s3 & s4 & -> & Hm2 & Hk)%IH2).
      exists (s1 ++ s3), s4. rewrite app_assoc, last_of_app.
      split; [done|]. split; [by constructor|done].
    + intros (s1 & s2 & -> & Hm & Hk). inversion Hm as [| | |? ? ? u1 u2 Hm1 Hm2| | | |]; subst.
      exists u1, (u2 ++ s2). rewrite <- app_assoc. split; [done|].
      rewrite last_of_app in Hk.
      split; [done|]. apply IH2. by exists u2, s2.
  - rewrite star_correct. split.
    + intros (s1 & s2 & -> & Hall & Hk). exists s1, s2.
      split; [done|]. split; [by constructor|done].
    + intros (s1 & s2 & -> & Hm & Hk). inversion Hm; subst. by exists s1, s2.
  - split.
    + destruct s as [|c s]; [done|].
      intros [Hc (s1 & s2 & -> & Hall & Hk)%star_correct]%andb_true_iff.
      exists (c :: s1), s2. rewrite last_of_cons. split; [done|].
      split; [|done]. constructor; [done|by constructor].
    + intros (s1 & s2 & -> & Hm & Hk).
      inversion Hm as [| | | | |? ? ? Hne Hall|  |]; subst.
      destruct s1 as [|c s1]; [done|]. apply Forall_cons in Hall as [Hc Hall].
      rewrite last_of_cons in Hk.
      simpl. apply andb_true_iff. split; [done|]. apply star_correct.
      by exists s1, s2.
  - rewrite orb_true_iff, IH. split.
    + intros [(s1 & s2 & -> & Hm & Hk)|Hk].
      * exists s1, s2. split; [done|].
        split; [by apply RegExp.matches_Opt_some|done].
      * exists [], s. split; [done|].
        split; [apply RegExp.matches_Opt_none|done].
    + intros (s1 & s2 & -> & Hm & Hk). inversion Hm; subst.
      * left. by exists s1, s2.
      * by right.
Qed.

Lemma search_from_correct (r : RegExp.t) (prev : option N) (s : JS.str)
    (i : Z) :
  0 ≤ i →
  (0 ≤ RegExp.search_from r prev s i ↔
   ∃ pre m post, s = pre ++ m ++ post ∧
     RegExp.matches r (RegExp.last_of prev pre) m).
Proof.
  revert prev i. induction s as [|c s IH]; intros prev i Hi; simpl.
  - destruct (RegExp.run r prev [] (λ _ _, true)) eqn:Hrun.
    + apply run_correct in Hrun as (s1 & s2 & He & Hm & _).
      split; [|done]. intros _. by exists [], s1, s2.
    + split; [lia|]. intros (pre & m & post & He & Hm).
      symmetry in He. apply app_eq_nil in He as [-> He].
      apply app_eq_nil in He as [-> ->].
      assert (RegExp.run r prev [] (λ _ _, true) = true); [|congruence].
      apply run_correct. by exists [], [].
  - destruct (RegExp.run r prev (c :: s) (λ _ _, true)) eqn:Hrun.
    + apply run_correct in Hrun as (s1 & s2 & He & Hm & _).
      split; [|done]. intros _. by exists [], s1, s2.
    + rewrite IH by lia. split.
      * intros (pre & m & post & -> & Hm). exists (c :: pre), m, post.
        by rewrite last_of_cons.
      * intros (pre & m & post & He & Hm). destruct pre as [|x pre].
        -- assert (RegExp.run r prev (c :: s) (λ _ _, true) = true);
             [|congruence].
           apply run_correct. exists m, post. by rewrite He.
        -- injection He as <- ->. rewrite last_of_cons in Hm.
           by exists pre, m, post.
Qed.

(** [search] finds a match exactly when the pattern matches somewhere. *)
Lemma search_correct (s : JS.str) (r : RegExp.t) :
  0 ≤ RegExp.search s r ↔
  ∃ pre m post, s = pre ++ m ++ post ∧ RegExp.matches r (last pre) m.
Proof.
  unfold RegExp.search. rewrite search_from_correct by done.
  assert (∀ pre, RegExp.last_of None pre = last pre) as Hl.
  { intros pre. unfold RegExp.last_of. by destruct (last pre). }
  by setoid_rewrite Hl.
Qed.

Lemma matches_Seq_iff (r1 r2 : RegExp.t) (prev : option N) (m : JS.str) :
  RegExp.matches (RegExp.Seq r1 r2) prev m ↔
  ∃ s1 s2, m = s1 ++ s2 ∧ RegExp.matches r1 prev s1 ∧
    RegExp.matches r2 (RegExp.last_of prev s1) s2.
Proof.
  split.
  - intros Hm. inversion Hm; subst. by eexists _, _.
  - intros (s1 & s2 & -> & H1 & H2). by constructor.
Qed.

Lemma matches_Str_iff (s : JS.str) (r : RegExp.t) (prev : option N)
    (m : JS.str) :
  RegExp.matches (RegExp.Str s r) prev m ↔
  ∃ m', m = s ++ m' ∧ RegExp.matches r (RegExp.last_of prev s) m'.
Proof.
  revert prev m. induction s as [|c s IH]; intros prev m.
  - simpl. split; [by eauto|]. by intros (m' & -> & Hm).
  - change (RegExp.Str (c :: s) r)
      with (RegExp.Seq (RegExp.Atom (RegExp.Char c)) (RegExp.Str s r)).
    rewrite matches_Seq_iff. split.
    + intros (s1 & s2 & -> & H1 & H2). inversion H1 as [|? c' ? Hc| | | | | |];
        subst. simpl in Hc. apply N.eqb_eq in Hc as ->.
      apply IH in H2 as (m' & -> & Hm). exists m'.
      split; [done|]. by rewrite last_of_cons.
    + intros (m' & -> & Hm). exists [c], (s ++ m'). split; [done|].
      split; [constructor; simpl; apply N.eqb_refl|].
      apply IH. exists m'. split; [done|]. by rewrite last_of_cons in Hm.
Qed.

Lemma matches_Star_Space (prev : option N) (m : JS.str) :
  RegExp.matches (RegExp.Star RegExp.Space) prev m ↔ white m.
Proof.
  split; [intros Hm; by inversion Hm|]. intros Hw. by constructor.
Qed.

(** An optional comma and at least one white-space character. *)
Lemma matches_setting_end (prev : option N) (m : JS.str) :
  RegExp.matches
    (RegExp.Seq (RegExp.Opt (RegExp.Atom (RegExp.Char 44)))
       (RegExp.Plus RegExp.Space)) prev m ↔
  ∃ comma w3, m = comma ++ w3 ∧ (comma = [] ∨ comma = [44%N]) ∧
    w3 ≠ [] ∧ white w3.
Proof.
  rewrite matches_Seq_iff. split.
  - intros (s1 & s2 & -> & H1 & H2). exists s1, s2. split; [done|].
    split.
    + inversion H1 as [| | | | | |? ? ? Ha|]; subst; [|by left].
      inversion Ha as [|? c ? Hc| | | | | |]; subst. simpl in Hc.
      apply N.eqb_eq in Hc as ->. by right.
    + by inversion H2; subst.
  - intros (comma & w3 & -> & Hc & Hne & Hw). exists comma, w3.
    split; [done|]. split; [|by constructor].
    destruct Hc as [->| ->]; [apply RegExp.matches_Opt_none|].
    apply RegExp.matches_Opt_some. by constructor.
Qed.

(** The shape shared by the two patterns of the source. *)
Lemma matches_setting (middle : RegExp.t) (V : JS.str → Prop)
    (prev : option N) (m : JS.str) :
  (∀ prev' m', RegExp.matches middle prev' m' ↔
     ∃ v comma w3, m' = v ++ comma ++ w3 ∧ V v ∧
       (comma = [] ∨ comma = [44%N]) ∧ w3 ≠ [] ∧ white w3) →
  RegExp.matches
    (RegExp.Seq RegExp.LineStart
       (RegExp.Seq (RegExp.Star RegExp.Space)
          (RegExp.Str (JS.lit "enableHermes:")
             (RegExp.Seq (RegExp.Star RegExp.Space) middle)))) prev m ↔
  RegExp.at_line_start prev = true ∧
  ∃ w1 w2 v comma w3,
    m = w1 ++ JS.lit "enableHermes:" ++ w2 ++ v ++ comma ++ w3 ∧
    white w1 ∧ white w2 ∧ V v ∧
    (comma = [] ∨ comma = [44%N]) ∧ w3 ≠ [] ∧ white w3.
Proof.
  intros Hmid. rewrite matches_Seq_iff. split.
  - intros (s0 & s1 & -> & H0 & H1). inversion H0; subst.
    split; [done|].
    apply matches_Seq_iff in H1 as (w1 & s2 & -> & Hw1 & H2).
    apply matches_Star_Space in Hw1.
    apply matches_Str_iff in H2 as (s3 & -> & H3).
    apply matches_Seq_iff in H3 as (w2 & s4 & -> & Hw2 & H4).
    apply matches_Star_Space in Hw2.
    apply Hmid in H4 as (v & comma & w3 & -> & Hv & Hc & Hne & Hw3).
    by exists w1, w2, v, comma, w3.
  - intros (Hp & w1 & w2 & v & comma & w3 & -> & Hw1 & Hw2 & Hv & Hc & Hne & Hw3).
    exists [], (w1 ++ JS.lit "enableHermes:" ++ w2 ++ v ++ comma ++ w3).
    split; [done|]. split; [by constructor|].
    apply matches_Seq_iff. eexists _, _. split; [done|].
    split; [by apply matches_Star_Space|].
    apply matches_Str_iff. eexists. split; [done|].
    apply matches_Seq_iff. eexists _, _. split; [done|].
    split; [by apply matches_Star_Space|].
    apply Hmid. by exists v, comma, w3.
Qed.

Lemma search_setting (middle : RegExp.t) (V : JS.str → Prop)
    (content : JS.str) :
  (∀ prev' m', RegExp.matches middle prev' m' ↔
     ∃ v comma w3, m' = v ++ comma ++ w3 ∧ V v ∧
       (comma = [] ∨ comma = [44%N]) ∧ w3 ≠ [] ∧ white w3) →
  0 ≤ RegExp.search content
        (RegExp.Seq RegExp.LineStart
           (RegExp.Seq (RegExp.Star RegExp.Space)
              (RegExp.Str (JS.lit "enableHermes:")
                 (RegExp.Seq (RegExp.Star RegExp.Space) middle)))) ↔
  has_setting V content.
Proof.
  intros Hmid. rewrite search_correct. unfold has_setting. split.
  - intros (pre & m & post & -> & Hm).
    apply (matches_setting middle V) in Hm
      as (Hp & w1 & w2 & v & comma & w3 & -> & H); [|done].
    exists pre, w1, w2, v, comma, w3, post.
    split; [by rewrite <- !app_assoc|]. by split.
  - intros (pre & w1 & w2 & v & comma & w3 & post & -> & Hp & H).
    exists pre, (w1 ++ JS.lit "enableHermes:" ++ w2 ++ v ++ comma ++ w3), post.
    split; [by rewrite <- !app_assoc|].
    apply (matches_setting middle V); [done|]. split; [done|].
    by exists w1, w2, v, comma, w3.
Qed.

(** ** The patterns of [maybeInconsistentEngineAndroidAsync] *)

Lemma enable_hermes_middle (prev : option N) (m : JS.str) :
  RegExp.matches
    (RegExp.Str (JS.lit "true")
       (RegExp.Seq (RegExp.Opt (RegExp.Atom (RegExp.Char 44)))
          (RegExp.Plus RegExp.Space))) prev m ↔
  ∃ v comma w3, m = v ++ comma ++ w3 ∧ v = JS.lit "true" ∧
    (comma = [] ∨ comma = [44%N]) ∧ w3 ≠ [] ∧ white w3.
Proof.
  rewrite matches_Str_iff. split.
  - intros (m' & -> & (comma & w3 & -> & H)%matches_setting_end).
    by exists (JS.lit "true"), comma, w3.
  - intros (v & comma & w3 & -> & -> & H). eexists. split; [done|].
    apply matches_setting_end. by exists comma, w3.
Qed.

Lemma props_reference_middle (prev : option N) (m : JS.str) :
  RegExp.matches
    (RegExp.Str (JS.lit "(findProperty('expo")
       (RegExp.Seq (RegExp.Atom RegExp.Dot)
          (RegExp.Str
             (JS.lit "jsEngine') ?: " ++ [CHAR_QUOTE] ++
              JS.lit "jsc" ++ [CHAR_QUOTE] ++ JS.lit ") == " ++
              [CHAR_QUOTE] ++ JS.lit "hermes" ++ [CHAR_QUOTE])
             (RegExp.Seq (RegExp.Opt (RegExp.Atom (RegExp.Char 44)))
                (RegExp.Plus RegExp.Space))))) prev m ↔
  ∃ v comma w3, m = v ++ comma ++ w3 ∧ props_reference_value v ∧
    (comma = [] ∨ comma = [44%N]) ∧ w3 ≠ [] ∧ white w3.
Proof.
  rewrite matches_Str_iff. unfold props_reference_value. split.
  - intros (m1 & -> & (s1 & m2 & -> & Hd & H2)%matches_Seq_iff).
    inversion Hd as [|? c ? Hc| | | | | |]; subst. simpl in Hc.
    apply negb_true_iff in Hc.
    apply matches_Str_iff in H2
      as (m3 & -> & (comma & w3 & -> & H)%matches_setting_end).
    eexists _, comma, w3. split; [|split; [by exists c|done]].
    by rewrite <- !app_assoc.
  - intros (v & comma & w3 & -> & (c & Hc & ->) & H).
    eexists. split; [by rewrite <- !app_assoc|].
    apply matches_Seq_iff. exists [c]. eexists. split; [done|].
    split; [constructor; simpl; by apply negb_true_iff|].
    apply matches_Str_iff. eexists. split; [by rewrite <- !app_assoc|].
    apply matches_setting_end. by exists comma, w3.
Qed.

(** X16. The test for a bare [enableHermes: true] in [build.gradle]: the
    search with [/^\s*enableHermes:\s*true,?\s+/m] succeeds exactly when
    the text has, at its start or right after a line terminator, optional
    white space, [enableHermes:], optional white space, [true], an
    optional comma and then at least one white-space character; a setting
    that ends the file without a line break after it is not found. *)
Theorem enable_hermes_pattern_search (content : JS.str) :
  0 ≤ RegExp.search content enable_hermes_pattern ↔
  has_setting (λ v, v = JS.lit "true") content.
Proof.
  unfold enable_hermes_pattern. apply search_setting.
  apply enable_hermes_middle.
Qed.

(** X17. The test for a reference to the property in [build.gradle]: the
    search with the pattern for
    [enableHermes: (findProperty('expo.jsEngine') ?: "jsc") == "hermes"]
    succeeds exactly when the text has such a setting at the start of a
    line and followed by white space, where the unescaped dot of the
    pattern lets any character except a line terminator stand between
    [expo] and [jsEngine]. *)
Theorem props_reference_pattern_search (content : JS.str) :
  0 ≤ RegExp.search content props_reference_pattern ↔
  has_setting props_reference_value content.
Proof.
  unfold props_reference_pattern. apply search_setting.
  apply props_reference_middle.
Qed.

(** ** The consistency check of the engine *)

Section EngineCheck.

Context {json : Type} (h : host json) (utf8_decode : list byte → JS.str).

Lemma fs_existsSync_absent (path : JS.str) (w : world) :
  absent (fs w) path → fs_existsSync path w = (Ok false, w).
Proof.
  intros [Hf Hd]. unfold fs_existsSync. rewrite bool_decide_eq_false_2; [done|].
  rewrite Hf. by intros [[? ?]|?].
Qed.

Lemma fs_existsSync_file (path : JS.str) (data : list byte) (w : world) :
  files (fs w) !! path = Some data → fs_existsSync path w = (Ok true, w).
Proof.
  intros Hf. unfold fs_existsSync. rewrite bool_decide_eq_true_2; [done|].
  left. by rewrite Hf.
Qed.

Lemma fs_readFile_utf8_file (path : JS.str) (data : list byte) (w : world) :
  files (fs w) !! path = Some data →
  fs_fault h (ReadFile path) (fs w) = None →
  fs_readFile_utf8 h utf8_decode path w =
  (Ok (utf8_decode data),
   {| fs := fs w; log := log w ++ [FsCall (ReadFile path)] |}).
Proof.
  intros Hf Hr. unfold fs_readFile_utf8, bind, fs_readFile, fs_op, ret.
  by rewrite Hr, Hf.
Qed.

Lemma fs_readFile_utf8_world (path : JS.str) (w : world) :
  (fs_readFile_utf8 h utf8_decode path w).2 =
  {| fs := fs w; log := log w ++ [FsCall (ReadFile path)] |}.
Proof.
  unfold fs_readFile_utf8, bind, fs_readFile, fs_op, ret.
  destruct (fs_fault h (ReadFile path) (fs w)); [done|].
  by destruct (files (fs w) !! path).
Qed.

Lemma check_build_gradle_world (projectRoot : JS.str) (m : bool) (w : world) :
  ∃ evs, (check_build_gradle h utf8_decode projectRoot m w).2 =
         {| fs := fs w; log := log w ++ evs |} ∧
    (evs = [] ∨ evs = [FsCall (ReadFile (appBuildGradlePath projectRoot))]).
Proof.
  unfold check_build_gradle, bind, fs_existsSync at 1.
  fold (appBuildGradlePath projectRoot).
  destruct (bool_decide _).
  - pose proof (fs_readFile_utf8_world (appBuildGradlePath projectRoot) w)
      as Hw.
    destruct (fs_readFile_utf8 h utf8_decode _ w) as [[content|e] w1];
      simpl in Hw; subst w1; eexists; (split; [done|by right]).
  - exists []. destruct w. simpl. rewrite app_nil_r. by split; [|left].
Qed.

Lemma check_gradle_properties_world (projectRoot : JS.str) (m : bool)
    (w : world) :
  ∃ evs, (check_gradle_properties h utf8_decode projectRoot m w).2 =
         {| fs := fs w; log := log w ++ evs |} ∧
    (evs = [] ∨ evs = [FsCall (ReadFile (gradlePropertiesPath projectRoot))]).
Proof.
  unfold check_gradle_properties, bind, fs_existsSync at 1.
  fold (gradlePropertiesPath projectRoot).
  destruct (bool_decide _).
  - pose proof (fs_readFile_utf8_world (gradlePropertiesPath projectRoot) w)
      as Hw.
    destruct (fs_readFile_utf8 h utf8_decode _ w) as [[content|e] w1];
      simpl in Hw; subst w1; eexists; (split; [done|by right]).
  - exists []. destruct w. simpl. rewrite app_nil_r. by split; [|left].
Qed.

(** X18. [maybeInconsistentEngineAsync] only reads: it changes no file or
    directory and starts no process, and all it does is to read
    [android/app/build.gradle] and then [android/gradle.properties], each
    at most once. When the platform is not android, or when neither file
    exists, it reads nothing and answers false. *)
Theorem maybeInconsistentEngineAsync_reads
    (projectRoot platform : JS.str) (isHermesManaged : bool) (w : world) :
  (∃ evs,
     (maybeInconsistentEngineAsync h utf8_decode projectRoot platform
        isHermesManaged w).2 = {| fs := fs w; log := log w ++ evs |} ∧
     (evs = [] ∨
      evs = [FsCall (ReadFile (appBuildGradlePath projectRoot))] ∨
      evs = [FsCall (ReadFile (gradlePropertiesPath projectRoot))] ∨
      evs = [FsCall (ReadFile (appBuildGradlePath projectRoot));
             FsCall (ReadFile (gradlePropertiesPath projectRoot))])) ∧
  (platform ≠ JS.lit "android" ∨
   (absent (fs w) (appBuildGradlePath projectRoot) ∧
    absent (fs w) (gradlePropertiesPath projectRoot)) →
   maybeInconsistentEngineAsync h utf8_decode projectRoot platform
     isHermesManaged w = (Ok false, w)).
Proof.
  unfold maybeInconsistentEngineAsync. split.
  - case_decide as Hp.
    2:{ exists []. destruct w. simpl. rewrite app_nil_r. by split; [|left]. }
    unfold maybeInconsistentEngineAndroidAsync, bind.
    destruct (check_build_gradle_world projectRoot isHermesManaged w)
      as (evs1 & Hw1 & He1).
    destruct (check_build_gradle h utf8_decode projectRoot isHermesManaged w)
      as [[[|]|e] w1]; simpl in Hw1; subst w1.
    + exists evs1. split; [done|]. destruct He1 as [->| ->]; tauto.
    + destruct (check_gradle_properties_world projectRoot isHermesManaged
                  {| fs := fs w; log := log w ++ evs1 |})
        as (evs2 & Hw2 & He2).
      destruct (check_gradle_properties h utf8_decode projectRoot
                  isHermesManaged _) as [[[|]|e] w2];
        simpl in Hw2; subst w2; exists (evs1 ++ evs2);
        (split; [simpl; by rewrite app_assoc|]);
        destruct He1 as [->| ->], He2 as [->| ->]; simpl; tauto.
    + exists evs1. split; [done|]. destruct He1 as [->| ->]; tauto.
  - intros [Hp|[H1 H2]]; [by rewrite decide_False|].
    case_decide; [|done].
    unfold maybeInconsistentEngineAndroidAsync, check_build_gradle,
      check_gradle_properties.
    fold (appBuildGradlePath projectRoot).
    fold (gradlePropertiesPath projectRoot).
    unfold bind. rewrite (fs_existsSync_absent _ w H1). cbv beta iota zeta.
    unfold ret at 1. by rewrite (fs_existsSync_absent _ w H2).
Qed.

Lemma engine_properties_run
    (projectRoot : JS.str) (isHermesManaged : bool) (w : world)
    (data : list byte) :
  absent (fs w) (appBuildGradlePath projectRoot) →
  files (fs w) !! gradlePropertiesPath projectRoot = Some data →
  fs_fault h (ReadFile (gradlePropertiesPath projectRoot)) (fs w) = None →
  maybeInconsistentEngineAsync h utf8_decode projectRoot
    (JS.lit "android") isHermesManaged w =
  (Ok (negb (eqb isHermesManaged
               (bool_decide
                  (parseGradleProperties (utf8_decode data)
                     !! JS.lit "expo.jsEngine" = Some (JS.lit "hermes"))))),
   {| fs := fs w;
      log := log w ++ [FsCall (ReadFile (gradlePropertiesPath projectRoot))] |}).
Proof.
  intros Habs Hf Hr. unfold maybeInconsistentEngineAsync.
  rewrite decide_True by done.
  unfold maybeInconsistentEngineAndroidAsync, check_build_gradle,
    check_gradle_properties.
  fold (appBuildGradlePath projectRoot).
  fold (gradlePropertiesPath projectRoot).
  unfold bind. rewrite (fs_existsSync_absent _ w Habs). cbv beta iota zeta.
  unfold ret at 1. rewrite (fs_existsSync_file _ data w Hf).
  rewrite (fs_readFile_utf8_file _ data w Hf Hr). cbv beta iota zeta.
  unfold ret. by destruct (negb _).
Qed.

Lemma declares_hermes_lookup (content : JS.str) :
  bool_decide (parseGradleProperties content !! JS.lit "expo.jsEngine"
               = Some (JS.lit "hermes")) = true ↔
  declares_hermes content.
Proof. rewrite bool_decide_eq_true. apply foldl_lines_lookup. Qed.

(** X19. When there is no [build.gradle], the properties file decides:
    with [android/gradle.properties] readable, the check answers true
    exactly when the managed setting and the file disagree, the file
    declaring Hermes when a line binds [expo.jsEngine] to exactly
    [hermes] and no later line binds the key again. *)
Theorem maybeInconsistentEngineAsync_properties
    (projectRoot : JS.str) (isHermesManaged : bool) (w : world)
    (data : list byte) :
  absent (fs w) (appBuildGradlePath projectRoot) →
  files (fs w) !! gradlePropertiesPath projectRoot = Some data →
  fs_fault h (ReadFile (gradlePropertiesPath projectRoot)) (fs w) = None →
  ∃ answer,
    (maybeInconsistentEngineAsync h utf8_decode projectRoot
       (JS.lit "android") isHermesManaged w).1 = Ok answer ∧
    (answer = true ↔
     ¬ (isHermesManaged = true ↔ declares_hermes (utf8_decode data))).
Proof.
  intros Habs Hf Hr. rewrite (engine_properties_run _ _ _ data) by done.
  pose proof (declares_hermes_lookup (utf8_decode data)) as Hd.
  destruct (bool_decide _), isHermesManaged; simpl;
    (eexists; split; [done|]); intuition congruence.
Qed.

(** A readable [build.gradle]: up to the second check. *)
Lemma engine_build_gradle_run
    (projectRoot : JS.str) (isHermesManaged : bool) (w : world)
    (data : list byte) :
  files (fs w) !! appBuildGradlePath projectRoot = Some data →
  fs_fault h (ReadFile (appBuildGradlePath projectRoot)) (fs w) = None →
  maybeInconsistentEngineAsync h utf8_decode projectRoot
    (JS.lit "android") isHermesManaged w =
  let w1 := {| fs := fs w;
               log := log w ++
                      [FsCall (ReadFile (appBuildGradlePath projectRoot))] |} in
  if negb (0 <=? RegExp.search (utf8_decode data) props_reference_pattern) &&
     negb (eqb isHermesManaged
             (0 <=? RegExp.search (utf8_decode data) enable_hermes_pattern))
  then (Ok true, w1)
  else bind (check_gradle_properties h utf8_decode projectRoot isHermesManaged)
         (λ inconsistent : bool, if inconsistent then ret true else ret false)
         w1.
Proof.
  intros Hf Hr. unfold maybeInconsistentEngineAsync.
  rewrite decide_True by done.
  unfold maybeInconsistentEngineAndroidAsync, check_build_gradle.
  fold (appBuildGradlePath projectRoot).
  unfold bind at 1 2 3. rewrite (fs_existsSync_file _ data w Hf).
  rewrite (fs_readFile_utf8_file _ data w Hf Hr). cbv beta iota zeta.
  unfold ret at 1. by destruct (_ && _).
Qed.

(** X20. [build.gradle] comes first. With [android/app/build.gradle]
    readable: when it does not refer to the property and its bare
    [enableHermes: true] setting (present or not) disagrees with the
    managed setting, the check answers true and never looks at
    [gradle.properties]; when it refers to the property, or agrees with
    the managed setting, the answer is that of the check of
    [gradle.properties]. *)
Theorem maybeInconsistentEngineAsync_build_gradle
    (projectRoot : JS.str) (isHermesManaged : bool) (w : world)
    (data : list byte) :
  files (fs w) !! appBuildGradlePath projectRoot = Some data →
  fs_fault h (ReadFile (appBuildGradlePath projectRoot)) (fs w) = None →
  (¬ has_setting props_reference_value (utf8_decode data) →
   ¬ (isHermesManaged = true ↔
      has_setting (λ v, v = JS.lit "true") (utf8_decode data)) →
   maybeInconsistentEngineAsync h utf8_decode projectRoot
     (JS.lit "android") isHermesManaged w =
   (Ok true,
    {| fs := fs w;
       log := log w ++
              [FsCall (ReadFile (appBuildGradlePath projectRoot))] |})) ∧
  (has_setting props_reference_value (utf8_decode data) ∨
   (isHermesManaged = true ↔
    has_setting (λ v, v = JS.lit "true") (utf8_decode data)) →
   (maybeInconsistentEngineAsync h utf8_decode projectRoot
      (JS.lit "android") isHermesManaged w).1 =
   (check_gradle_properties h utf8_decode projectRoot isHermesManaged
      {| fs := fs w;
         log := log w ++
                [FsCall (ReadFile (appBuildGradlePath projectRoot))] |}).1).
Proof.
  intros Hf Hr. rewrite (engine_build_gradle_run _ _ _ data) by done.
  cbv zeta.
  pose proof (search_setting _ _ (utf8_decode data) props_reference_middle)
    as Hprops.
  pose proof (search_setting _ _ (utf8_decode data) enable_hermes_middle)
    as Hbare.
  fold props_reference_pattern in Hprops.
  fold enable_hermes_pattern in Hbare.
  rewrite <- Hprops, <- Hbare, <- !Z.leb_le.
  destruct (0 <=? RegExp.search (utf8_decode data) props_reference_pattern),
    (0 <=? RegExp.search (utf8_decode data) enable_hermes_pattern),
    isHermesManaged; simpl; split; try done; try (intuition congruence).
  all: intros _; unfold bind;
    destruct (check_gradle_properties h utf8_decode projectRoot _ _)
      as [[[|]|e] w2]; done.
Qed.

End EngineCheck.

Lemma maybeInconsistentEngineAsync_reads_witness :
  maybeInconsistentEngineAsync (example_host stub_compiler no_fault)
    ascii_text (JS.lit "/app") (JS.lit "ios") true (start properties_project)
  = (Ok false, start properties_project).
Proof.
  refine (proj2 (maybeInconsistentEngineAsync_reads _ _ _ _ _ _) _).
  by left.
Defined.

Lemma maybeInconsistentEngineAsync_properties_witness :
  ∃ answer,
    (maybeInconsistentEngineAsync (example_host stub_compiler no_fault)
       ascii_text (JS.lit "/app") (JS.lit "android") false
       (start properties_project)).1 = Ok answer ∧
    (answer = true ↔
     ¬ (false = true ↔
        declares_hermes
          (ascii_text
             (ascii_bytes (JS.lit "# engine" ++ [CHAR_NEWLINE] ++
                           JS.lit "expo.jsEngine=hermes" ++
                           [CHAR_NEWLINE]))))).
Proof.
  refine (maybeInconsistentEngineAsync_properties
            (example_host stub_compiler no_fault) ascii_text (JS.lit "/app")
            false (start properties_project) _ _ _ _).
  - split; by vm_compute.
  - by vm_compute.
  - reflexivity.
Defined.

Lemma maybeInconsistentEngineAsync_build_gradle_witness :
  (maybeInconsistentEngineAsync (example_host stub_compiler no_fault)
     ascii_text (JS.lit "/app") (JS.lit "android") true
     (start bare_project)).1 =
  (check_gradle_properties (example_host stub_compiler no_fault)
     ascii_text (JS.lit "/app") true
     {| fs := bare_project;
        log := [FsCall (ReadFile (JS.lit "/app/android/app/build.gradle"))] |}).1.
Proof.
  refine (proj2 (maybeInconsistentEngineAsync_build_gradle
                   (example_host stub_compiler no_fault) ascii_text
                   (JS.lit "/app") true (start bare_project) _ _ _) _).
  - by vm_compute.
  - reflexivity.
  - right. split; [|done]. intros _.
    exists (JS.lit "project.ext.react = [" ++ [CHAR_NEWLINE]),
      (JS.lit "    "), (JS.lit " "), (JS.lit "true"), [44%N],
      [CHAR_NEWLINE], (JS.lit "]").
    split; [by vm_compute|]. split; [by vm_compute|].
    split; [by repeat constructor|]. split; [by repeat constructor|].
    split; [done|]. split; [by right|]. split; [done|].
    by repeat constructor.
Defined.

(** ** The managed setting and the native project together *)

(** X21. The check applied to the managed setting of a configuration, as
    the callers combine [isEnableHermesManaged] and
    [maybeInconsistentEngineAsync]. For a platform other than android the
    managed setting is off and the check answers false without reading.
    For android, with no [build.gradle] and a readable
    [gradle.properties], the project is found consistent exactly when the
    configuration asks for Hermes ([android.jsEngine] is [hermes]) if and
    only if the properties file declares it. *)
Theorem managed_engine_consistency {json : Type} (h : host json)
    (utf8_decode : list byte → JS.str) (expoConfig : ExpoConfig)
    (projectRoot platform : JS.str) (w : world) (data : list byte) :
  (platform ≠ JS.lit "android" →
   isEnableHermesManaged expoConfig platform = false ∧
   maybeInconsistentEngineAsync h utf8_decode projectRoot platform
     (isEnableHermesManaged expoConfig platform) w = (Ok false, w)) ∧
  (absent (fs w) (appBuildGradlePath projectRoot) →
   files (fs w) !! gradlePropertiesPath projectRoot = Some data →
   fs_fault h (ReadFile (gradlePropertiesPath projectRoot)) (fs w) = None →
   ((maybeInconsistentEngineAsync h utf8_decode projectRoot
       (JS.lit "android")
       (isEnableHermesManaged expoConfig (JS.lit "android")) w).1 = Ok false ↔
    ((∃ a, android expoConfig = Some a ∧
           jsEngine a = Some (JS.lit "hermes")) ↔
     declares_hermes (utf8_decode data)))).
Proof.
  split.
  - intros Hp. unfold isEnableHermesManaged, maybeInconsistentEngineAsync.
    by rewrite !decide_False.
  - intros Habs Hf Hr. rewrite (engine_properties_run _ _ _ _ _ data) by done.
    pose proof (declares_hermes_lookup (utf8_decode data)) as Hd.
    unfold isEnableHermesManaged. rewrite decide_True by done.
    set (declared := bool_decide
           (parseGradleProperties (utf8_decode data)
              !! JS.lit "expo.jsEngine" = Some (JS.lit "hermes"))) in *.
    assert (∀ b : bool,
              (b = true ↔ ∃ a, android expoConfig = Some a ∧
                               jsEngine a = Some (JS.lit "hermes")) →
              (Ok (negb (eqb b declared)) = Ok false ↔
               ((∃ a, android expoConfig = Some a ∧
                      jsEngine a = Some (JS.lit "hermes")) ↔
                declares_hermes (utf8_decode data)))) as Hgen.
    { intros b Hb. rewrite <- Hb, <- Hd.
      destruct b, declared; simpl; split; try done;
        try (intuition congruence). }
    simpl. apply Hgen.
    destruct (android expoConfig) as [a|].
    + rewrite bool_decide_eq_true. split; [by eauto|].
      by intros (a' & [= <-] & Ha).
    + split; [done|]. by intros (a & ? & _).
Qed.

Lemma managed_engine_consistency_witness :
  (maybeInconsistentEngineAsync (example_host stub_compiler no_fault)
     ascii_text (JS.lit "/app") (JS.lit "android")
     (isEnableHermesManaged
        {| android := Some {| jsEngine := Some (JS.lit "hermes") |} |}
        (JS.lit "android"))
     (start properties_project)).1 = Ok false ↔
  ((∃ a, android {| android := Some {| jsEngine := Some (JS.lit "hermes") |} |}
           = Some a ∧ jsEngine a = Some (JS.lit "hermes")) ↔
   declares_hermes
     (ascii_text
        (ascii_bytes (JS.lit "# engine" ++ [CHAR_NEWLINE] ++
                      JS.lit "expo.jsEngine=hermes" ++ [CHAR_NEWLINE])))).
Proof.
  refine (proj2 (managed_engine_consistency
                   (example_host stub_compiler no_fault) ascii_text
                   {| android := Some {| jsEngine := Some (JS.lit "hermes") |} |}
                   (JS.lit "/app") (JS.lit "android")
                   (start properties_project) _) _ _ _).
  - split; by vm_compute.
  - by vm_compute.
  - reflexivity.
Defined.
